(** * libmira / gui.py: the curses frame controller

    A shallow embedding of [gui.py]: the [GUI] object, its drawing API
    ([draw], [draw_string], the two coordinate look-ups), the bodies of the
    render and input threads, and the interleaving of the two threads.

    Python integers are [Z]; a Python [str] is a [string]; the pixel
    dictionary [self.pixels] is a [gmap] keyed by curses coordinates
    [(row, column)]; exceptions are values threaded through a small
    state-and-error monad over the [GUI] object. *)

From Stdlib Require Import ZArith String Ascii List Bool Lia.
From stdpp Require Import base option list gmap strings pretty.

Open Scope string_scope.
Open Scope list_scope.
Open Scope Z_scope.

(** ** Module constants *)

Module Const.

(* Directions *)
Definition LEFT : Z := 0.
Definition UP_LEFT : Z := 1.
Definition UP : Z := 2.
Definition UP_RIGHT : Z := 3.
Definition RIGHT : Z := 4.
Definition DOWN_RIGHT : Z := 5.
Definition DOWN : Z := 6.
Definition DOWN_LEFT : Z := 7.

(* Origins *)
Definition TOP_LEFT : Z := 8.
Definition TOP_CENTER : Z := 9.
Definition TOP_RIGHT : Z := 10.
Definition CENTER_LEFT : Z := 11.
Definition CENTER : Z := 12.
Definition CENTER_RIGHT : Z := 13.
Definition BOTTOM_LEFT : Z := 14.
Definition BOTTOM_CENTER : Z := 15.
Definition BOTTOM_RIGHT : Z := 16.

(* curses.A_NORMAL is the attribute word with no bit set. *)
Definition A_NORMAL : Z := 0.

End Const.
Export Const.

(** A pixel is a [(character, attr)] pair. *)
Abbreviation pixel := (string * Z)%type.

(* Singletons *)
Definition BLANK_PIXEL : pixel := (" ", A_NORMAL).

(** ** Exceptions *)

(** An exception class: one of the built-in classes the program names or
    raises, or a class given by its name and its direct bases (a class
    with no base listed derives from none of the four). *)
#[warnings="-register-all"]
Inductive exn_class : Type :=
  | KeyboardInterrupt
  | EOFError
  | ValueError
  | AttributeError
  | Class (name : string) (bases : list exn_class).

Record exn : Type := mkExn { exn_type : exn_class; exn_msg : string }.

Definition class_name (c : exn_class) : string :=
  match c with
  | KeyboardInterrupt => "KeyboardInterrupt"
  | EOFError => "EOFError"
  | ValueError => "ValueError"
  | AttributeError => "AttributeError"
  | Class name _ => name
  end.

(** [str(type(e))] *)
Definition format_type (c : exn_class) : string :=
  "<class '" +:+ class_name c +:+ "'>".

(** The clause [except (KeyboardInterrupt, EOFError)]: it catches the
    instances of the two classes and of every class derived from one of
    them. *)
Fixpoint is_interrupt (c : exn_class) : bool :=
  match c with
  | KeyboardInterrupt | EOFError => true
  | ValueError | AttributeError => false
  | Class _ bases => existsb is_interrupt bases
  end.

Inductive result (A : Type) : Type :=
  | Ok (a : A)
  | Raise (e : exn).
Arguments Ok {A} a.
Arguments Raise {A} e.

(** ** The GUI object

    [screen_size], [screen_height] and [screen_width] are not assigned by
    [__init__]; they exist only once the render thread has sampled the
    terminal, hence the [option].  [screen] is the curses window, seen as
    the history of [addstr] calls made on it; [gui_log] is the contents of
    the log file, one entry per [log] call, without the time stamp.  Of
    the two [Thread] objects the object holds, what matters is whether
    each has been started: a [Thread] can be started once only. *)

Abbreviation addstr_call := (Z * Z * pixel)%type.

Record GUI : Type := mkGUI {
  running : bool;
  pixels : gmap (Z * Z) pixel;
  screen_size : option (Z * Z);
  screen_height : option Z;
  screen_width : option Z;
  screen : list addstr_call;
  gui_log : list string;
  input_started : bool;     (* [start()] was called on [self.input_thread] *)
  render_started : bool     (* [start()] was called on [self.render_thread] *)
}.

Definition set_running (b : bool) (g : GUI) : GUI :=
  mkGUI b (pixels g) (screen_size g) (screen_height g) (screen_width g)
        (screen g) (gui_log g) (input_started g) (render_started g).

Definition set_pixels (p : gmap (Z * Z) pixel) (g : GUI) : GUI :=
  mkGUI (running g) p (screen_size g) (screen_height g) (screen_width g)
        (screen g) (gui_log g) (input_started g) (render_started g).

Definition set_screen_size (s : Z * Z) (g : GUI) : GUI :=
  mkGUI (running g) (pixels g) (Some s) (screen_height g) (screen_width g)
        (screen g) (gui_log g) (input_started g) (render_started g).

Definition set_screen_height (h : Z) (g : GUI) : GUI :=
  mkGUI (running g) (pixels g) (screen_size g) (Some h) (screen_width g)
        (screen g) (gui_log g) (input_started g) (render_started g).

Definition set_screen_width (w : Z) (g : GUI) : GUI :=
  mkGUI (running g) (pixels g) (screen_size g) (screen_height g) (Some w)
        (screen g) (gui_log g) (input_started g) (render_started g).

Definition set_screen (s : list addstr_call) (g : GUI) : GUI :=
  mkGUI (running g) (pixels g) (screen_size g) (screen_height g)
        (screen_width g) s (gui_log g) (input_started g) (render_started g).

Definition set_gui_log (l : list string) (g : GUI) : GUI :=
  mkGUI (running g) (pixels g) (screen_size g) (screen_height g)
        (screen_width g) (screen g) l (input_started g) (render_started g).

Definition set_input_started (b : bool) (g : GUI) : GUI :=
  mkGUI (running g) (pixels g) (screen_size g) (screen_height g)
        (screen_width g) (screen g) (gui_log g) b (render_started g).

Definition set_render_started (b : bool) (g : GUI) : GUI :=
  mkGUI (running g) (pixels g) (screen_size g) (screen_height g)
        (screen_width g) (screen g) (gui_log g) (input_started g) b.

(** [GUI.__init__] *)
Definition init : GUI :=
  {| running := true;
     pixels := ∅;
     screen_size := None;
     screen_height := None;
     screen_width := None;
     screen := [];
     gui_log := [];
     input_started := false;
     render_started := false |}.

(** ** Methods run in a state-and-exception monad over the object *)

Definition M (A : Type) : Type := GUI -> result A * GUI.

Definition ret {A} (a : A) : M A := fun g => (Ok a, g).

Definition bind {A B} (m : M A) (k : A -> M B) : M B :=
  fun g =>
    match m g with
    | (Ok a, g') => k a g'
    | (Raise e, g') => (Raise e, g')
    end.

Definition raise {A} (e : exn) : M A := fun g => (Raise e, g).

(** [try: m  except <any>: h e] *)
Definition try_except {A} (m : M A) (h : exn -> M A) : M A :=
  fun g =>
    match m g with
    | (Ok a, g') => (Ok a, g')
    | (Raise e, g') => h e g'
    end.

Definition modify (f : GUI -> GUI) : M unit := fun g => (Ok tt, f g).

Notation "'let*' x ':=' m 'in' k" := (bind m (fun x => k))
  (at level 10, x pattern, m at level 100, k at level 200).
Notation "m '>>' k" := (bind m (fun _ => k))
  (at level 65, right associativity).

(** [for a in l: body a] *)
Fixpoint for_each {A} (l : list A) (body : A -> M unit) : M unit :=
  match l with
  | [] => ret tt
  | a :: l' => body a >> for_each l' body
  end.

(** Reading an attribute that [__init__] did not create. *)
Definition attribute_error (attr : string) : exn :=
  mkExn AttributeError ("'GUI' object has no attribute '" +:+ attr +:+ "'").

Definition get_screen_height : M Z :=
  fun g =>
    match screen_height g with
    | Some h => (Ok h, g)
    | None => (Raise (attribute_error "screen_height"), g)
    end.

Definition get_screen_width : M Z :=
  fun g =>
    match screen_width g with
    | Some w => (Ok w, g)
    | None => (Raise (attribute_error "screen_width"), g)
    end.

(** ** Public methods *)

(** [GUI.log], with the default [sep] and [end]: one entry per call. *)
Definition log (args : list string) : M unit :=
  modify (fun g => set_gui_log (gui_log g ++ [String.concat " " args]) g).

(** [GUI.stop] *)
Definition stop : M unit := modify (set_running false).

(** [GUI.__bool__] *)
Definition gui_bool (g : GUI) : bool := running g.

(** [GUI.draw].  The chained comparison reads [self.screen_width] only when
    [0 <= x] holds, and [self.screen_height] only when the three tests
    before it hold. *)
Definition draw (coord : Z * Z) (character : string) (attr : Z) : M unit :=
  let '(x, y) := coord in
  let* in_bounds :=
    (if 0 <=? x then
       let* w := get_screen_width in
       if x <? w then
         if 0 <=? y then
           let* h := get_screen_height in ret (y <? h)
         else ret false
       else ret false
     else ret false) in
  if (in_bounds : bool) then
    let* h := get_screen_height in
    let curses_y := h - (y + 1) in
    let curses_coord := (curses_y, x) in
    modify (fun g => set_pixels (<[curses_coord := (character, attr)]> (pixels g)) g)
  else ret tt.

Definition value_error (msg : string) : exn := mkExn ValueError msg.

(** [GUI.get_directional_reference] *)
Definition get_directional_reference (direction : Z) : M (Z * Z) :=
  if direction =? LEFT then ret (-1, 0)
  else if direction =? UP_LEFT then ret (-1, 1)
  else if direction =? UP then ret (0, 1)
  else if direction =? UP_RIGHT then ret (1, 1)
  else if direction =? RIGHT then ret (1, 0)
  else if direction =? DOWN_RIGHT then ret (1, -1)
  else if direction =? DOWN then ret (0, -1)
  else if direction =? DOWN_LEFT then ret (-1, -1)
  else raise (value_error ("Unknown direction '" +:+ pretty direction +:+ "'")).

(** [GUI.get_origin_reference]; [n >> 1] is [Z.shiftr n 1]. *)
Definition get_origin_reference (origin : Z) : M (Z * Z) :=
  if origin =? TOP_LEFT then
    let* h := get_screen_height in ret (0, h - 1)
  else if origin =? TOP_CENTER then
    let* w := get_screen_width in
    let* h := get_screen_height in ret (Z.shiftr w 1, h - 1)
  else if origin =? TOP_RIGHT then
    let* w := get_screen_width in
    let* h := get_screen_height in ret (w - 1, h - 1)
  else if origin =? CENTER_LEFT then
    let* h := get_screen_height in ret (0, Z.shiftr h 1)
  else if origin =? CENTER then
    let* w := get_screen_width in
    let* h := get_screen_height in ret (Z.shiftr w 1, Z.shiftr h 1)
  else if origin =? CENTER_RIGHT then
    let* w := get_screen_width in
    let* h := get_screen_height in ret (w - 1, Z.shiftr h 1)
  else if origin =? BOTTOM_LEFT then ret (0, 0)
  else if origin =? BOTTOM_CENTER then
    let* w := get_screen_width in ret (Z.shiftr w 1, 0)
  else if origin =? BOTTOM_RIGHT then
    let* w := get_screen_width in ret (w - 1, 0)
  else raise (value_error ("Unknown origin '" +:+ pretty origin +:+ "'")).

(** [enumerate(string)]: iterating a [str] yields one-character strings. *)
Fixpoint enumerate_from (i : Z) (s : string) : list (Z * string) :=
  match s with
  | EmptyString => []
  | String c s' => (i, String c EmptyString) :: enumerate_from (i + 1) s'
  end.

Definition enumerate (s : string) : list (Z * string) := enumerate_from 0 s.

(** [GUI.draw_string] *)
Definition draw_string (coord : Z * Z) (string : string)
    (attr direction origin : Z) : M unit :=
  let '(x, y) := coord in
  let* (origin_x, origin_y) := get_origin_reference origin in
  let* (directional_x, directional_y) := get_directional_reference direction in
  for_each (enumerate string) (fun '(i, character) =>
    draw (origin_x + (x + directional_x * i),
          origin_y + (y + directional_y * i))
         character attr).

(** ** Hooks

    The abstract methods an application overrides.  A hook is arbitrary
    code acting on the object: it may use the drawing API, call [stop],
    or raise. *)

Record Hooks : Type := mkHooks {
  setup : M unit;
  pre_render : M unit;
  render : M unit;
  post_render : M unit;
  keypress : Z -> M unit
}.

(** The base class: every hook is [pass]. *)
Definition default_hooks : Hooks :=
  {| setup := ret tt;
     pre_render := ret tt;
     render := ret tt;
     post_render := ret tt;
     keypress := fun _ => ret tt |}.

(** ** The render thread *)

(** [try: gui.screen.addstr(y, x, *pixel)  except Exception: pass] --
    the call is issued; a failure of the device is swallowed. *)
Definition addstr (y x : Z) (p : pixel) : M unit :=
  modify (fun g => set_screen (screen g ++ [(y, x, p)]) g).

(** [gui.pixels.get((y, x), BLANK_PIXEL)] *)
Definition get_pixel (y x : Z) : M pixel :=
  fun g => (Ok (default BLANK_PIXEL (pixels g !! (y, x))), g).

(** "Output the pixels to the screen": [range(n)] is [seqZ 0 n]. *)
Definition flush : M unit :=
  let* h := get_screen_height in
  for_each (seqZ 0 h) (fun y =>
    let* w := get_screen_width in
    for_each (seqZ 0 w) (fun x =>
      let* pixel := get_pixel y x in
      addstr y x pixel)).

(** "Zero the pixels" *)
Definition clear : M unit := modify (set_pixels ∅).

(** "Update the window size"; [size] is what [getmaxyx()] returned. *)
Definition sample (size : Z * Z) : M unit :=
  modify (fun g =>
    set_screen_width (snd size) (set_screen_height (fst size)
      (set_screen_size size g))).

Definition render_try (hk : Hooks) (size : Z * Z) : M unit :=
  sample size >>
  pre_render hk >>
  render hk >>
  post_render hk >>
  flush >>
  clear.

(** [except BaseException as e] of [render_thread] *)
Definition render_handler (e : exn) : M unit :=
  stop >>
  log ["Render thread exception, " +:+ format_type (exn_type e) +:+ ": "
         +:+ exn_msg e].

(** One pass through the body of [while gui:] in [render_thread]. *)
Definition render_iteration (hk : Hooks) (size : Z * Z) : M unit :=
  try_except (render_try hk size) render_handler.

(** ** The input thread *)

(** [getch()] either returns a key code ([-1] on time-out) or raises. *)
Definition input_try (hk : Hooks) (got : result Z) : M unit :=
  match got with
  | Raise e => raise e
  | Ok key => if key =? -1 then ret tt else keypress hk key
  end.

(** The two [except] clauses of [input_thread], tried in order. *)
Definition input_handler (e : exn) : M unit :=
  if is_interrupt (exn_type e) then
    stop >>
    log ["Input thread received Keyboard Interrupt / EOF"]
  else
    stop >>
    log ["Input thread exception, " +:+ format_type (exn_type e) +:+ ": "
           +:+ exn_msg e].

(** One pass through the body of [while gui:] in [input_thread]. *)
Definition input_iteration (hk : Hooks) (got : result Z) : M unit :=
  try_except (input_try hk got) input_handler.

(** ** The two threads, interleaved

    Each thread is a small machine over the shared object; the steps are
    the points at which the other thread may run in between.  A label
    names the thread that moves and carries what the terminal would answer
    if that step asks it. *)

Inductive render_pc : Type :=
  | RTop      (* at [while gui:] *)
  | RSleep    (* in [sleep(SLEEP_TIME)], about to sample the size *)
  | RPre      (* about to call [pre_render] *)
  | RRender   (* about to call [render] *)
  | RPost     (* about to call [post_render] *)
  | RFlush    (* about to output and zero the pixels *)
  | RDone.    (* the thread has returned *)

Inductive input_pc : Type :=
  | ITop              (* at [while gui:] *)
  | IGetch            (* in [getch()] *)
  | IKey (key : Z)    (* about to call [keypress(key)] *)
  | IDone.            (* the thread has returned *)

Inductive hook_name : Type :=
  | HPreRender | HRender | HPostRender | HKeypress (key : Z).

Inductive event : Type :=
  | EvTick                     (* the render loop entered its body *)
  | EvHook (name : hook_name)  (* a hook was called *)
  | EvFlush.                   (* the output of the pixels was started *)

Record Sys : Type := mkSys {
  gui : GUI;
  rpc : render_pc;
  ipc : input_pc;
  trace : list event
}.

Inductive label : Type :=
  | LRender (size : Z * Z)
  | LInput (got : result Z)
  | LInterrupt.

(** A step of the render thread's [try] block: on success go to [next];
    on an exception run the handler and go back to the loop test (an
    exception leaving the handler would end the thread). *)
Definition render_phase (m : M unit) (next : render_pc) (ev : list event)
    (s : Sys) : Sys :=
  match m (gui s) with
  | (Ok _, g') => mkSys g' next (ipc s) (trace s ++ ev)
  | (Raise e, g') =>
      match render_handler e g' with
      | (Ok _, g'') => mkSys g'' RTop (ipc s) (trace s ++ ev)
      | (Raise _, g'') => mkSys g'' RDone (ipc s) (trace s ++ ev)
      end
  end.

Definition render_step (hk : Hooks) (size : Z * Z) (s : Sys) : Sys :=
  match rpc s with
  | RTop =>
      if gui_bool (gui s)
      then mkSys (gui s) RSleep (ipc s) (trace s ++ [EvTick])
      else mkSys (gui s) RDone (ipc s) (trace s)
  | RSleep => render_phase (sample size) RPre [] s
  | RPre => render_phase (pre_render hk) RRender [EvHook HPreRender] s
  | RRender => render_phase (render hk) RPost [EvHook HRender] s
  | RPost => render_phase (post_render hk) RFlush [EvHook HPostRender] s
  | RFlush => render_phase (flush >> clear) RTop [EvFlush] s
  | RDone => s
  end.

(** The same for the input thread, whose [try] block ends the pass. *)
Definition input_phase (m : M unit) (ev : list event) (s : Sys) : Sys :=
  match m (gui s) with
  | (Ok _, g') => mkSys g' (rpc s) ITop (trace s ++ ev)
  | (Raise e, g') =>
      match input_handler e g' with
      | (Ok _, g'') => mkSys g'' (rpc s) ITop (trace s ++ ev)
      | (Raise _, g'') => mkSys g'' (rpc s) IDone (trace s ++ ev)
      end
  end.

Definition input_step (hk : Hooks) (got : result Z) (s : Sys) : Sys :=
  match ipc s with
  | ITop =>
      if gui_bool (gui s)
      then mkSys (gui s) (rpc s) IGetch (trace s)
      else mkSys (gui s) (rpc s) IDone (trace s)
  | IGetch =>
      match got with
      | Ok key =>
          if key =? -1
          then mkSys (gui s) (rpc s) ITop (trace s)
          else mkSys (gui s) (rpc s) (IKey key) (trace s)
      | Raise e => input_phase (raise e) [] s
      end
  | IKey key => input_phase (keypress hk key) [EvHook (HKeypress key)] s
  | IDone => s
  end.

(** [except (KeyboardInterrupt, EOFError)] around the two [join]s in
    [GUI.start]: only while a thread is still being waited for. *)
Definition interrupt_step (s : Sys) : Sys :=
  match rpc s, ipc s with
  | RDone, IDone => s
  | _, _ =>
      mkSys (snd ((stop >> log ["GUI ended by keyboard interrupt"]) (gui s)))
            (rpc s) (ipc s) (trace s)
  end.

Definition step (hk : Hooks) (l : label) (s : Sys) : Sys :=
  match l with
  | LRender size => render_step hk size s
  | LInput got => input_step hk got s
  | LInterrupt => interrupt_step s
  end.

(** Run a schedule, first label first. *)
Definition run (hk : Hooks) (sched : list label) (s : Sys) : Sys :=
  fold_left (fun s l => step hk l s) sched s.

(** [GUI.start] up to the point where both threads have been started:
    the log is truncated, "GUI start" is logged and [setup] runs; an
    exception of [setup] leaves [start] before any thread exists. *)
Definition boot (hk : Hooks) (g : GUI) : result Sys :=
  match (modify (set_gui_log []) >> log ["GUI start"] >> setup hk) g with
  | (Ok _, g') => Ok (mkSys g' RTop ITop [])
  | (Raise e, _) => Raise e
  end.

(** ** What a flush outputs, as a function of the buffer *)

Definition flush_row (px : gmap (Z * Z) pixel) (w y : Z) : list addstr_call :=
  (fun x => (y, x, default BLANK_PIXEL (px !! (y, x)))) <$> seqZ 0 w.

Definition flush_cells (h w : Z) (px : gmap (Z * Z) pixel)
    : list addstr_call :=
  concat (flush_row px w <$> seqZ 0 h).

(** The device cell of a logical coordinate. *)
Definition to_device (h : Z) (coord : Z * Z) : Z * Z :=
  (h - (snd coord + 1), fst coord).

(** The test of [draw]. *)
Definition in_bounds (w h : Z) (coord : Z * Z) : bool :=
  (0 <=? fst coord) && (fst coord <? w) && (0 <=? snd coord)
    && (snd coord <? h).

(** * Vocabulary of the statements *)

(** What one [draw] does to the dictionary when the size is [w] by [h]. *)
Definition put (w h : Z) (px : gmap (Z * Z) pixel)
    (call : Z * Z * string * Z) : gmap (Z * Z) pixel :=
  let '(coord, character, attr) := call in
  if in_bounds w h coord
  then <[to_device h coord := (character, attr)]> px
  else px.

Definition draw_call (call : Z * Z * string * Z) : M unit :=
  let '(coord, character, attr) := call in draw coord character attr.

(** [flush_shows g cell p]: a flush of [g] succeeds, and what it outputs
    for the device cell [cell] is the pixel [p] and nothing else. *)
Definition flush_shows (g : GUI) (cell : Z * Z) (p : pixel) : Prop :=
  exists g' emitted,
    flush g = (Ok tt, g') /\
    screen g' = screen g ++ emitted /\
    forall q, (cell, q) ∈ emitted <-> q = p.

(** The object right after the first sampling of an 80 by 24 terminal. *)
Definition gui_80x24 : GUI := snd (sample (24, 80) init).

Definition directions : list Z :=
  [LEFT; UP_LEFT; UP; UP_RIGHT; RIGHT; DOWN_RIGHT; DOWN; DOWN_LEFT].

Definition origins : list Z :=
  [TOP_LEFT; TOP_CENTER; TOP_RIGHT; CENTER_LEFT; CENTER; CENTER_RIGHT;
   BOTTOM_LEFT; BOTTOM_CENTER; BOTTOM_RIGHT].

(** The logical coordinate of the [i]-th character of a string. *)
Definition string_cell (ox oy x y dx dy i : Z) : Z * Z :=
  (ox + (x + dx * i), oy + (y + dy * i)).

(** [respects R m]: running [m] relates the object before to the object
    after by [R], whether [m] returns or raises. *)
Definition respects (R : GUI -> GUI -> Prop) {A} (m : M A) : Prop :=
  forall g, R g (snd (m g)).

(** A stopped controller stays stopped. *)
Definition stays_stopped (g g' : GUI) : Prop :=
  running g = false -> running g' = false.

(** The pixel dictionary is not touched. *)
Definition same_pixels (g g' : GUI) : Prop := pixels g' = pixels g.

(** The hooks of an application never put a stopped controller back into
    the running state. *)
Definition hooks_keep_stopped (hk : Hooks) : Prop :=
  respects stays_stopped (setup hk) /\
  respects stays_stopped (pre_render hk) /\
  respects stays_stopped (render hk) /\
  respects stays_stopped (post_render hk) /\
  forall key, respects stays_stopped (keypress hk key).

(** The calls an application can make on the controller. *)
Inductive api_call : Type :=
  | CallStop
  | CallLog (args : list string)
  | CallDraw (coord : Z * Z) (character : string) (attr : Z)
  | CallDrawString (coord : Z * Z) (s : string) (attr direction origin : Z)
  | CallDirection (direction : Z)
  | CallOrigin (origin : Z).

Definition api (call : api_call) : M unit :=
  match call with
  | CallStop => stop
  | CallLog args => log args
  | CallDraw coord character attr => draw coord character attr
  | CallDrawString coord s attr direction origin =>
      draw_string coord s attr direction origin
  | CallDirection direction =>
      let* _ := get_directional_reference direction in ret tt
  | CallOrigin origin =>
      let* _ := get_origin_reference origin in ret tt
  end.

(** One of the three render hooks raises [e], leaving the object as [g1],
    when the hooks are run in order from [g0]. *)
Definition render_hook_raises (hk : Hooks) (g0 : GUI) (e : exn) (g1 : GUI)
    : Prop :=
  pre_render hk g0 = (Raise e, g1) \/
  (exists ga,
     pre_render hk g0 = (Ok tt, ga) /\ render hk ga = (Raise e, g1)) \/
  (exists ga gb,
     pre_render hk g0 = (Ok tt, ga) /\ render hk ga = (Ok tt, gb) /\
     post_render hk gb = (Raise e, g1)).

(** The render thread is at its loop test or has returned. *)
Definition render_idle (s : Sys) : Prop := rpc s = RTop \/ rpc s = RDone.

(** No render hook is called in [evs]. *)
Definition no_render_hook (evs : list event) : Prop :=
  forall name, EvHook name ∈ evs -> exists key, name = HKeypress key.

(** Draws a greeting every frame; the key [q] stops the controller. *)
Definition demo_hooks : Hooks :=
  {| setup := ret tt;
     pre_render := ret tt;
     render := draw_string (0, 0) "HI" A_NORMAL RIGHT BOTTOM_LEFT;
     post_render := ret tt;
     keypress := fun key => if key =? 113 then stop else ret tt |}.

(** Passes a direction that does not exist, in [render] and in [keypress]. *)
Definition failing_hooks : Hooks :=
  {| setup := ret tt;
     pre_render := ret tt;
     render := draw_string (0, 0) "HI" A_NORMAL 99 BOTTOM_LEFT;
     post_render := ret tt;
     keypress := fun _ => draw_string (0, 0) "HI" A_NORMAL 99 BOTTOM_LEFT |}.

(** [keypress] raises [EOFError("boom")]. *)
Definition eof_hooks : Hooks :=
  {| setup := ret tt;
     pre_render := ret tt;
     render := ret tt;
     post_render := ret tt;
     keypress := fun _ => raise (mkExn EOFError "boom") |}.








(** [keypress] raises an instance of a class derived from [EOFError]. *)
Definition eof_subclass_hooks : Hooks :=
  {| setup := ret tt;
     pre_render := ret tt;
     render := ret tt;
     post_render := ret tt;
     keypress := fun _ =>
       raise (mkExn (Class "asyncio.exceptions.IncompleteReadError" [EOFError])
                    "0 bytes read on a total of 4 expected bytes") |}.

(** [render] always fails; [keypress] sets the running flag back. *)
Definition restart_hooks : Hooks :=
  {| setup := ret tt;
     pre_render := ret tt;
     render := raise (mkExn ValueError "boom");
     post_render := ret tt;
     keypress := fun _ => modify (set_running true) |}.

(** The input thread reads a key; the first tick fails in [render]. *)
Definition failed_tick_schedule : list label :=
  replicate 2 (LInput (Ok 120)) ++ replicate 4 (LRender (2, 3)).

(** Then [keypress] is called with the key, and the render thread goes
    on. *)
Definition restart_schedule : list label :=
  failed_tick_schedule ++ [LInput (Ok 120)] ++ replicate 4 (LRender (2, 3)).

(** ** The terminal and [GUI.start]

    What [Screen] does to the terminal is kept as the calls it makes on
    curses, in order; what each call does to the terminal is the
    library's business and is not interpreted here. *)

Inductive curses_call : Type :=
  | Initscr
  | Noecho
  | Cbreak
  | Keypad (flag : Z)
  | StartColor
  | UseDefaultColors
  | InitPair (pair fg bg : Z)
  | CursSet (visibility : Z)
  | Timeout (delay : Z)
  | Echo
  | Nocbreak
  | Endwin.

(** The curses calls made so far, oldest first. *)
Abbreviation Terminal := (list curses_call).

(** [Screen.__enter__]; [colors] is [curses.COLORS]. *)
Definition screen_enter (colors : Z) (t : Terminal) : Terminal :=
  t ++ [Initscr; Noecho; Cbreak; Keypad 1; StartColor; UseDefaultColors]
    ++ ((fun i => InitPair (i + 1) i (-1)) <$> seqZ 0 colors)
    ++ [CursSet 0; Timeout 50].

(** [Screen.__exit__] *)
Definition screen_exit (t : Terminal) : Terminal :=
  t ++ [CursSet 1; Keypad 0; Echo; Nocbreak; Endwin].

(** What [Thread.start] raises on a thread that was started before. *)
Definition threads_once : exn :=
  mkExn (Class "RuntimeError" []) "threads can only be started once".

(** How a call of [GUI.start] stands after a schedule of the threads. *)
Inductive outcome : Type :=
  | Returned (g : GUI) (t : Terminal)           (* [start] has returned *)
  | Raised (e : exn) (g : GUI) (t : Terminal)   (* an exception left [start] *)
  | Joining (s : Sys) (t : Terminal).           (* still inside the [with] *)

(** [GUI.start], the threads being run along [sched]: the log is truncated
    and "GUI start" logged; inside [with Screen()] the [setup] hook runs,
    then the input thread and the render thread are started, which raises
    [RuntimeError] for a thread started before, and joined; leaving the
    [with] block, normally or by an exception, runs [Screen.__exit__];
    "GUI end" is logged after the block.  (When only the render thread
    was started before, the exception leaves [start] with the input
    thread just started; that thread is not followed further.) *)
Definition start (hk : Hooks) (colors : Z) (sched : list label)
    (g : GUI) (t : Terminal) : outcome :=
  let g1 := snd ((modify (set_gui_log []) >> log ["GUI start"]) g) in
  let t1 := screen_enter colors t in
  match setup hk g1 with
  | (Raise e, g2) => Raised e g2 (screen_exit t1)
  | (Ok _, g2) =>
      if input_started g2 then Raised threads_once g2 (screen_exit t1)
      else
        let g3 := set_input_started true g2 in
        if render_started g3 then Raised threads_once g3 (screen_exit t1)
        else
          let g4 := set_render_started true g3 in
          let s := run hk sched (mkSys g4 RTop ITop []) in
          match rpc s, ipc s with
          | RDone, IDone =>
              Returned (snd (log ["GUI end"] (gui s))) (screen_exit t1)
          | _, _ => Joining s t1
          end
  end.

(** ** More vocabulary *)

(** [grows g g']: from [g] to [g'] only the pixel dictionary changed, and
    it lost no key. *)
Definition grows (g g' : GUI) : Prop :=
  g' = set_pixels (pixels g') g /\
  forall k, is_Some (pixels g !! k) -> is_Some (pixels g' !! k).

(** Where a tick stands, judged by the events of the render thread. *)
Inductive tick_phase : Type :=
  | OIdle      (* no tick under way *)
  | OTick      (* the loop body was entered *)
  | OPre       (* [pre_render] was called *)
  | ORender    (* [render] was called *)
  | OPost.     (* [post_render] was called *)

(** The order in which the render thread may record its events: within a
    tick [pre_render], [render], [post_render] and the flush come in that
    order, each at most once and none skipped; a new tick may begin once
    the previous one flushed or was cut short after a hook.  Key presses
    may come anywhere. *)
Definition order_step (ph : tick_phase) (ev : event) : option tick_phase :=
  match ev, ph with
  | EvHook (HKeypress _), _ => Some ph
  | EvTick, (OIdle | OPre | ORender | OPost) => Some OTick
  | EvHook HPreRender, OTick => Some OPre
  | EvHook HRender, OPre => Some ORender
  | EvHook HPostRender, ORender => Some OPost
  | EvFlush, OPost => Some OIdle
  | _, _ => None
  end.

Fixpoint order_run (ph : tick_phase) (evs : list event) : option tick_phase :=
  match evs with
  | [] => Some ph
  | ev :: evs' =>
      match order_step ph ev with
      | Some ph' => order_run ph' evs'
      | None => None
      end
  end.

(** The phase that goes with a point of the render loop. *)
Definition phase_at (pc : render_pc) (ph : tick_phase) : Prop :=
  match pc with
  | RTop | RDone => ph <> OTick
  | RSleep | RPre => ph = OTick
  | RRender => ph = OPre
  | RPost => ph = ORender
  | RFlush => ph = OPost
  end.

(** Steps the render thread needs at most to return once the controller
    is stopped, and the same for the input thread. *)
Definition render_left (pc : render_pc) : nat :=
  match pc with
  | RDone => 0
  | RTop => 1
  | RFlush => 2
  | RPost => 3
  | RRender => 4
  | RPre => 5
  | RSleep => 6
  end.

Definition input_left (pc : input_pc) : nat :=
  match pc with
  | IDone => 0
  | ITop => 1
  | IKey _ => 2
  | IGetch => 3
  end.

Definition is_render_label (l : label) : bool :=
  match l with LRender _ => true | _ => false end.

Definition is_input_label (l : label) : bool :=
  match l with LInput _ => true | _ => false end.

Fixpoint count_if {A} (p : A -> bool) (l : list A) : nat :=
  match l with
  | [] => 0
  | a :: l' => (if p a then 1 else 0) + count_if p l'
  end.

(** [keypress(key)] was called. *)
Definition is_keypress_of (key : Z) (ev : event) : bool :=
  match ev with
  | EvHook (HKeypress k) => k =? key
  | _ => false
  end.

(** The label lets [getch] return [key]. *)
Definition is_getch_of (key : Z) (l : label) : bool :=
  match l with
  | LInput (Ok k) => k =? key
  | _ => false
  end.

(** The input thread holds [key] and is about to call [keypress]. *)
Definition pending (key : Z) (s : Sys) : nat :=
  match ipc s with
  | IKey k => if k =? key then 1 else 0
  | _ => 0
  end.

(** The calls of [keypress(key)] made or about to be made are covered by
    as many returns of [key] from [getch] along [seen], and there is none
    for the time-out code. *)
Definition keys_received (key : Z) (seen : list label) (s : Sys) : Prop :=
  (count_if (is_keypress_of key) (trace s) + pending key s
     <= count_if (is_getch_of key) seen)%nat /\
  (key = -1 ->
   (count_if (is_keypress_of key) (trace s) + pending key s = 0)%nat).

(** A terminal on which curses has not been used yet. *)
Definition cooked_terminal : Terminal := [].

(** The key [q], then enough steps for both threads to return. *)
Definition quit_schedule : list label :=
  replicate 3 (LInput (Ok 113)) ++
  (replicate 3 (LInput (Ok 120)) ++ replicate 6 (LRender (24, 80))).

(** The object that a first [start] of the sample application, run along
    [quit_schedule], leaves behind. *)
Definition after_first_start : GUI :=
  match start demo_hooks 8 quit_schedule init cooked_terminal with
  | Returned g _ => g
  | Raised _ g _ => g
  | Joining s _ => gui s
  end.

(** [setup] draws before any size was sampled. *)
Definition early_draw_hooks : Hooks :=
  {| setup := draw (0, 0) "X" A_NORMAL;
     pre_render := ret tt;
     render := ret tt;
     post_render := ret tt;
     keypress := fun _ => ret tt |}.

(** * Basic facts *)

Section Basics.

Lemma set_screen_id g : set_screen (screen g) g = g.
Proof. by destruct g. Qed.

Lemma set_pixels_id g : set_pixels (pixels g) g = g.
Proof. by destruct g. Qed.

Lemma bind_ok {A B} (m : M A) (k : A -> M B) g a g' :
  m g = (Ok a, g') -> bind m k g = k a g'.
Proof. unfold bind. by intros ->. Qed.

Lemma bind_raise {A B} (m : M A) (k : A -> M B) g e g' :
  m g = (Raise e, g') -> bind m k g = (Raise e, g').
Proof. unfold bind. by intros ->. Qed.

Lemma bind_ext {A B} (m : M A) (k1 k2 : A -> M B) g :
  (forall a g', k1 a g' = k2 a g') -> bind m k1 g = bind m k2 g.
Proof. intros Hk. unfold bind. by destruct (m g) as [[a|e] g']. Qed.

Lemma bind_assoc {A B C} (m : M A) (k1 : A -> M B) (k2 : B -> M C) g :
  bind (bind m k1) k2 g = bind m (fun a => bind (k1 a) k2) g.
Proof. unfold bind. by destruct (m g) as [[a|e] g']. Qed.

Lemma bind_ret_r (m : M unit) g : (m >> ret tt) g = m g.
Proof. unfold bind, ret. by destruct (m g) as [[[]|e] g']. Qed.

Lemma for_each_app {A} (l1 l2 : list A) body g :
  for_each (l1 ++ l2) body g = (for_each l1 body >> for_each l2 body) g.
Proof.
  revert g. induction l1 as [|a l1 IH]; intros g; [done|].
  cbn [for_each app]. rewrite bind_assoc. by apply bind_ext.
Qed.

Lemma get_width_some g w :
  screen_width g = Some w -> get_screen_width g = (Ok w, g).
Proof. unfold get_screen_width. by intros ->. Qed.

Lemma get_height_some g h :
  screen_height g = Some h -> get_screen_height g = (Ok h, g).
Proof. unfold get_screen_height. by intros ->. Qed.

(** [draw] with the dimensions present: one insertion, or nothing. *)
Lemma draw_spec g w h coord character attr :
  screen_width g = Some w ->
  screen_height g = Some h ->
  draw coord character attr g =
    (Ok tt,
     if in_bounds w h coord
     then set_pixels (<[to_device h coord := (character, attr)]> (pixels g)) g
     else g).
Proof.
  intros Hw Hh. destruct coord as [x y].
  unfold draw, in_bounds, to_device, bind, ret, modify,
    get_screen_width, get_screen_height.
  cbn [fst snd].
  destruct (0 <=? x); cbn; [rewrite Hw|done].
  destruct (x <? w); cbn; [|done].
  destruct (0 <=? y); cbn; [rewrite Hh|done].
  destruct (y <? h); cbn; [by rewrite Hh|done].
Qed.

Lemma in_bounds_true w h x y :
  in_bounds w h (x, y) = true <-> (0 <= x < w /\ 0 <= y < h).
Proof. unfold in_bounds; simpl. lia. Qed.

Lemma in_bounds_false w h x y :
  in_bounds w h (x, y) = false <-> (x < 0 \/ w <= x \/ y < 0 \/ h <= y).
Proof.
  unfold in_bounds; simpl.
  destruct (Z.leb_spec 0 x), (Z.ltb_spec x w), (Z.leb_spec 0 y),
    (Z.ltb_spec y h); simpl; split; intros; try done; lia.
Qed.

Lemma elem_of_flush_cells h w px r c p :
  (r, c, p) ∈ flush_cells h w px <->
  0 <= r < h /\ 0 <= c < w /\ p = default BLANK_PIXEL (px !! (r, c)).
Proof.
  unfold flush_cells, flush_row.
  rewrite list_elem_of_In, in_concat.
  setoid_rewrite <- list_elem_of_In. split.
  - intros (row & Hrow & Hin).
    apply list_elem_of_fmap in Hrow as (y & -> & Hy).
    apply list_elem_of_fmap in Hin as (x & Heq & Hx).
    apply elem_of_seqZ in Hy. apply elem_of_seqZ in Hx.
    injection Heq as -> -> ->. repeat split; lia.
  - intros (Hr & Hc & ->).
    exists (flush_row px w r). unfold flush_row. split.
    + apply list_elem_of_fmap. exists r. split; [done|].
      apply elem_of_seqZ. lia.
    + apply list_elem_of_fmap. exists c. split; [done|].
      apply elem_of_seqZ. lia.
Qed.

Lemma flush_row_spec y l : forall g,
  for_each l (fun x => let* pixel := get_pixel y x in addstr y x pixel) g =
  (Ok tt,
   set_screen
     (screen g ++
        ((fun x => (y, x, default BLANK_PIXEL (pixels g !! (y, x)))) <$> l))
     g).
Proof.
  induction l as [|x l IH]; intros g.
  - cbn. by rewrite app_nil_r, set_screen_id.
  - cbn [for_each]. unfold bind at 1. unfold bind at 1.
    unfold get_pixel at 1, addstr at 1, modify.
    rewrite IH. cbn. by rewrite <- app_assoc.
Qed.

Lemma flush_rows_spec w rows : forall g,
  screen_width g = Some w ->
  for_each rows (fun y =>
    let* w := get_screen_width in
    for_each (seqZ 0 w) (fun x =>
      let* pixel := get_pixel y x in addstr y x pixel)) g =
  (Ok tt,
   set_screen (screen g ++ concat (flush_row (pixels g) w <$> rows)) g).
Proof.
  induction rows as [|y rows IH]; intros g Hw.
  - cbn. by rewrite app_nil_r, set_screen_id.
  - cbn [for_each]. unfold bind at 1. unfold bind at 1.
    rewrite (get_width_some _ _ Hw), flush_row_spec.
    rewrite IH by done. cbn. by rewrite <- app_assoc.
Qed.

Lemma flush_spec g w h :
  screen_width g = Some w ->
  screen_height g = Some h ->
  flush g =
    (Ok tt, set_screen (screen g ++ flush_cells h w (pixels g)) g).
Proof.
  intros Hw Hh. unfold flush, bind at 1.
  rewrite (get_height_some _ _ Hh). by apply flush_rows_spec.
Qed.

End Basics.

(** ** A sequence of [draw] calls *)

Section Draws.

Lemma draw_call_spec g w h call :
  screen_width g = Some w ->
  screen_height g = Some h ->
  draw_call call g = (Ok tt, set_pixels (put w h (pixels g) call) g).
Proof.
  intros Hw Hh. destruct call as [[coord character] attr].
  unfold draw_call, put. rewrite (draw_spec g w h) by done.
  destruct (in_bounds w h coord); [done|]. by rewrite set_pixels_id.
Qed.

Lemma draws_spec w h calls : forall g,
  screen_width g = Some w ->
  screen_height g = Some h ->
  for_each calls draw_call g =
    (Ok tt, set_pixels (fold_left (put w h) calls (pixels g)) g).
Proof.
  induction calls as [|call calls IH]; intros g Hw Hh.
  - cbn. by rewrite set_pixels_id.
  - cbn [for_each fold_left]. unfold bind at 1.
    rewrite (draw_call_spec g w h) by done.
    by rewrite IH.
Qed.

Lemma for_each_fmap {A B} (f : A -> B) (body : B -> M unit) l :
  for_each (f <$> l) body = for_each l (fun a => body (f a)).
Proof. induction l as [|a l IH]; cbn; [done|]. by rewrite IH. Qed.

(** A key that no in-bounds call of the sequence targets keeps its
    binding. *)
Lemma fold_put_other w h calls k : forall px,
  (forall coord character attr,
     (coord, character, attr) ∈ calls ->
     in_bounds w h coord = true -> to_device h coord <> k) ->
  fold_left (put w h) calls px !! k = px !! k.
Proof.
  induction calls as [|[[coord character] attr] calls IH]; intros px Hk.
  - done.
  - cbn [fold_left]. rewrite IH.
    + unfold put. destruct (in_bounds w h coord) eqn:Hb; [|done].
      apply lookup_insert_ne.
      apply (Hk coord character attr); [left|done].
    + intros c ch a Hin. apply (Hk c ch a). by right.
Qed.

(** The last in-bounds call that targets a key decides its binding. *)
Lemma fold_put_last w h before after coord character attr px :
  in_bounds w h coord = true ->
  (forall coord' character' attr',
     (coord', character', attr') ∈ after ->
     in_bounds w h coord' = true ->
     to_device h coord' <> to_device h coord) ->
  fold_left (put w h) (before ++ (coord, character, attr) :: after) px
    !! to_device h coord = Some (character, attr).
Proof.
  intros Hb Hafter. rewrite fold_left_app. cbn [fold_left].
  rewrite fold_put_other by done.
  unfold put at 1. rewrite Hb. apply lookup_insert_eq.
Qed.

Lemma to_device_inj h c1 c2 : to_device h c1 = to_device h c2 -> c1 = c2.
Proof.
  destruct c1, c2. unfold to_device; cbn. intros [= ? ?]. f_equal; lia.
Qed.

End Draws.

Section Drawing.

Lemma flush_shows_lookup g w h r c :
  screen_width g = Some w ->
  screen_height g = Some h ->
  0 <= r < h -> 0 <= c < w ->
  flush_shows g (r, c) (default BLANK_PIXEL (pixels g !! (r, c))).
Proof.
  intros Hw Hh Hr Hc.
  exists (set_screen (screen g ++ flush_cells h w (pixels g)) g),
    (flush_cells h w (pixels g)).
  split; [by apply flush_spec|]. split; [done|].
  intros q. rewrite elem_of_flush_cells.
  split; [by intros (_ & _ & ->)|by intros ->].
Qed.

Lemma flush_shows_device g w h coord p :
  screen_width g = Some w ->
  screen_height g = Some h ->
  in_bounds w h coord = true ->
  pixels g !! to_device h coord = Some p ->
  flush_shows g (to_device h coord) p.
Proof.
  intros Hw Hh Hb Hp. destruct coord as [x y].
  apply in_bounds_true in Hb.
  pose proof (flush_shows_lookup g w h (h - (y + 1)) x Hw Hh) as Hs.
  unfold to_device in *; cbn [fst snd] in *.
  rewrite Hp in Hs. apply Hs; lia.
Qed.

End Drawing.

(** * The drawing API *)

(** C1.  For a logical coordinate [(x, y)] inside the current screen
    ([0 <= x < width], [0 <= y < height]), [draw] stores
    [(character, attr)] under the key [(height - (y + 1), x)], and a flush
    of that buffer outputs exactly that pixel at that device cell. *)
Theorem draw_in_bounds_flush g w h x y character attr :
  screen_width g = Some w ->
  screen_height g = Some h ->
  0 <= x < w ->
  0 <= y < h ->
  exists g',
    draw (x, y) character attr g = (Ok tt, g') /\
    pixels g' !! (h - (y + 1), x) = Some (character, attr) /\
    flush_shows g' (h - (y + 1), x) (character, attr).
Proof.
  intros Hw Hh Hx Hy.
  assert (Hb : in_bounds w h (x, y) = true) by (apply in_bounds_true; lia).
  eexists. rewrite (draw_spec g w h), Hb by done.
  split; [done|].
  assert (Hp : pixels
            (set_pixels (<[to_device h (x, y) := (character, attr)]> (pixels g)) g)
            !! to_device h (x, y) = Some (character, attr))
    by apply lookup_insert_eq.
  split; [exact Hp|].
  by apply (flush_shows_device _ w h (x, y)).
Qed.

Lemma draw_in_bounds_flush_witness :
  exists g',
    draw (3, 5) "#" 7 gui_80x24 = (Ok tt, g') /\
    pixels g' !! (24 - (5 + 1), 3) = Some ("#", 7) /\
    flush_shows g' (24 - (5 + 1), 3) ("#", 7).
Proof.
  apply (draw_in_bounds_flush gui_80x24 80 24 3 5 "#" 7);
    [reflexivity | reflexivity | lia | lia].
Defined.

(** C3.  For a logical coordinate outside the current screen, [draw] is a
    no-op: it returns normally and leaves the object, hence the buffer and
    anything a flush would output, unchanged. *)
Theorem draw_out_of_bounds_noop g w h x y character attr :
  screen_width g = Some w ->
  screen_height g = Some h ->
  x < 0 \/ x >= w \/ y < 0 \/ y >= h ->
  draw (x, y) character attr g = (Ok tt, g) /\
  pixels (snd (draw (x, y) character attr g)) = pixels g /\
  flush (snd (draw (x, y) character attr g)) = flush g.
Proof.
  intros Hw Hh Hout.
  assert (Hb : in_bounds w h (x, y) = false) by (apply in_bounds_false; lia).
  rewrite (draw_spec g w h), Hb by done. done.
Qed.

Lemma draw_out_of_bounds_noop_witness :
  draw (80, 0) "#" 7 gui_80x24 = (Ok tt, gui_80x24) /\
  pixels (snd (draw (80, 0) "#" 7 gui_80x24)) = pixels gui_80x24 /\
  flush (snd (draw (80, 0) "#" 7 gui_80x24)) = flush gui_80x24.
Proof.
  apply (draw_out_of_bounds_noop gui_80x24 80 24 80 0 "#" 7);
    [reflexivity | reflexivity | lia].
Defined.

(** C8.  When two [draw] calls of one frame resolve to the same device
    cell, whatever other cells are drawn in between, the pair of the later
    call is the one stored, and the one a flush outputs at that cell. *)
Theorem draw_later_wins g w h c1 ch1 a1 mid c2 ch2 a2 :
  screen_width g = Some w ->
  screen_height g = Some h ->
  in_bounds w h c1 = true ->
  in_bounds w h c2 = true ->
  to_device h c1 = to_device h c2 ->
  exists g',
    (draw c1 ch1 a1 >> for_each mid draw_call >> draw c2 ch2 a2) g
      = (Ok tt, g') /\
    pixels g' !! to_device h c2 = Some (ch2, a2) /\
    flush_shows g' (to_device h c2) (ch2, a2).
Proof.
  intros Hw Hh Hb1 Hb2 Hdev.
  pose proof (draws_spec w h ((c1, ch1, a1) :: mid ++ [(c2, ch2, a2)]) g Hw Hh)
    as Hrun.
  cbn [for_each] in Hrun.
  eexists. split.
  { rewrite <- Hrun. apply bind_ext. intros _ g1.
    rewrite for_each_app. apply bind_ext. intros _ g2.
    cbn [for_each]. symmetry. apply bind_ret_r. }
  assert (Hp : fold_left (put w h) ((c1, ch1, a1) :: mid ++ [(c2, ch2, a2)])
                 (pixels g) !! to_device h c2 = Some (ch2, a2)).
  { rewrite app_comm_cons.
    apply fold_put_last; [done|]. intros ? ? ? Hin. by apply elem_of_nil in Hin. }
  split; [exact Hp|].
  by apply (flush_shows_device _ w h c2).
Qed.

Lemma draw_later_wins_witness :
  exists g',
    (draw (3, 5) "a" 0 >> for_each [((4, 5), "b", 0); ((3, 5), "c", 1)] draw_call
       >> draw (3, 5) "z" 2) gui_80x24 = (Ok tt, g') /\
    pixels g' !! to_device 24 (3, 5) = Some ("z", 2) /\
    flush_shows g' (to_device 24 (3, 5)) ("z", 2).
Proof.
  apply (draw_later_wins gui_80x24 80 24 (3, 5) "a" 0
           [((4, 5), "b", 0); ((3, 5), "c", 1)] (3, 5) "z" 2);
    reflexivity.
Defined.

(** C10.  An in-bounds [draw] changes the binding of the key
    [(height - (y + 1), x)] at most: every other key keeps its presence
    and value, no entry is removed, and no other attribute of the object
    changes. *)
Theorem draw_frame g w h x y character attr :
  screen_width g = Some w ->
  screen_height g = Some h ->
  0 <= x < w ->
  0 <= y < h ->
  exists g',
    draw (x, y) character attr g = (Ok tt, g') /\
    (forall k, k <> (h - (y + 1), x) -> pixels g' !! k = pixels g !! k) /\
    (forall k, is_Some (pixels g !! k) -> is_Some (pixels g' !! k)) /\
    g' = set_pixels (pixels g') g.
Proof.
  intros Hw Hh Hx Hy.
  assert (Hb : in_bounds w h (x, y) = true) by (apply in_bounds_true; lia).
  eexists. rewrite (draw_spec g w h), Hb by done.
  split; [done|]. unfold to_device; cbn [fst snd set_pixels pixels].
  split; [|split; [|done]].
  - intros k Hk. by apply lookup_insert_ne.
  - intros k Hsome. destruct (decide ((h - (y + 1), x) = k)) as [<-|Hne].
    + rewrite lookup_insert_eq. eauto.
    + by rewrite lookup_insert_ne.
Qed.

Lemma draw_frame_witness :
  exists g',
    draw (3, 5) "#" 7 gui_80x24 = (Ok tt, g') /\
    (forall k, k <> (24 - (5 + 1), 3) -> pixels g' !! k = pixels gui_80x24 !! k) /\
    (forall k, is_Some (pixels gui_80x24 !! k) -> is_Some (pixels g' !! k)) /\
    g' = set_pixels (pixels g') gui_80x24.
Proof.
  apply (draw_frame gui_80x24 80 24 3 5 "#" 7);
    [reflexivity | reflexivity | lia | lia].
Defined.

(** * The coordinate look-ups *)

(** C4.  With a positive width and height, each of the nine anchors
    resolves to its closed form: x is 0, floor(width/2) or width - 1 for
    the LEFT, CENTER and RIGHT columns; y is 0, floor(height/2) or
    height - 1 for the BOTTOM, CENTER and TOP rows. *)
Theorem origin_closed_form g w h :
  screen_width g = Some w ->
  screen_height g = Some h ->
  0 < w ->
  0 < h ->
  get_origin_reference TOP_LEFT g = (Ok (0, h - 1), g) /\
  get_origin_reference TOP_CENTER g = (Ok (w / 2, h - 1), g) /\
  get_origin_reference TOP_RIGHT g = (Ok (w - 1, h - 1), g) /\
  get_origin_reference CENTER_LEFT g = (Ok (0, h / 2), g) /\
  get_origin_reference CENTER g = (Ok (w / 2, h / 2), g) /\
  get_origin_reference CENTER_RIGHT g = (Ok (w - 1, h / 2), g) /\
  get_origin_reference BOTTOM_LEFT g = (Ok (0, 0), g) /\
  get_origin_reference BOTTOM_CENTER g = (Ok (w / 2, 0), g) /\
  get_origin_reference BOTTOM_RIGHT g = (Ok (w - 1, 0), g).
Proof.
  intros Hw Hh _ _.
  assert (Hshift : forall n, Z.shiftr n 1 = n / 2)
    by (intros n; by rewrite Z.shiftr_div_pow2).
  unfold get_origin_reference; cbn [Z.eqb TOP_LEFT TOP_CENTER TOP_RIGHT
    CENTER_LEFT CENTER CENTER_RIGHT BOTTOM_LEFT BOTTOM_CENTER BOTTOM_RIGHT
    Pos.eqb].
  unfold bind, ret, get_screen_width, get_screen_height.
  rewrite Hw, Hh, !Hshift. done.
Qed.

Lemma origin_closed_form_witness :
  get_origin_reference CENTER gui_80x24 = (Ok (40, 12), gui_80x24).
Proof.
  apply (origin_closed_form gui_80x24 80 24); [reflexivity | reflexivity | lia | lia].
Defined.

(** C6.  An argument that is not one of the eight direction identifiers
    makes [get_directional_reference] raise [ValueError]; an argument that
    is not one of the nine anchor identifiers makes [get_origin_reference]
    raise [ValueError].  Neither returns a vector in that case, and the
    object is left as it was. *)
Theorem unknown_identifier_raises direction origin g :
  (direction ∉ directions ->
   get_directional_reference direction g =
     (Raise (mkExn ValueError ("Unknown direction '" +:+ pretty direction +:+ "'")),
      g)) /\
  (origin ∉ origins ->
   get_origin_reference origin g =
     (Raise (mkExn ValueError ("Unknown origin '" +:+ pretty origin +:+ "'")),
      g)).
Proof.
  split; intros Hnot.
  - unfold get_directional_reference.
    repeat (match goal with
            | |- context [?a =? ?b] =>
                destruct (Z.eqb_spec a b) as [->|_];
                [exfalso; apply Hnot; unfold directions;
                 rewrite list_elem_of_In; cbn; intuition|]
            end).
    done.
  - unfold get_origin_reference.
    repeat (match goal with
            | |- context [?a =? ?b] =>
                destruct (Z.eqb_spec a b) as [->|_];
                [exfalso; apply Hnot; unfold origins;
                 rewrite list_elem_of_In; cbn; intuition|]
            end).
    done.
Qed.

Lemma unknown_identifier_raises_witness :
  get_directional_reference BOTTOM_LEFT init =
    (Raise (mkExn ValueError "Unknown direction '14'"), init) /\
  get_origin_reference RIGHT init =
    (Raise (mkExn ValueError "Unknown origin '4'"), init).
Proof.
  split.
  - apply (proj1 (unknown_identifier_raises BOTTOM_LEFT RIGHT init)).
    apply (bool_decide_unpack _). vm_compute. exact I.
  - apply (proj2 (unknown_identifier_raises BOTTOM_LEFT RIGHT init)).
    apply (bool_decide_unpack _). vm_compute. exact I.
Defined.

(** * Strings of pixels *)

Section DrawString.

Lemma for_each_ext {A} (l : list A) (b1 b2 : A -> M unit) :
  (forall a, b1 a = b2 a) -> for_each l b1 = for_each l b2.
Proof.
  intros Hb. induction l as [|a l IH]; cbn; [done|]. by rewrite Hb, IH.
Qed.

Lemma enumerate_from_range s : forall k j c,
  (j, c) ∈ enumerate_from k s -> k <= j < k + Z.of_nat (String.length s).
Proof.
  induction s as [|a s IH]; intros k j c Hin; cbn in Hin.
  - by apply elem_of_nil in Hin.
  - apply elem_of_cons in Hin as [[= -> ->]|Hin].
    + cbn [String.length]. lia.
    + apply IH in Hin. cbn [String.length]. lia.
Qed.

(** The [n]-th character sits at index [k + n], after [n] entries, and
    every later entry has a larger index. *)
Lemma enumerate_from_split s : forall k n c,
  String.get n s = Some c ->
  exists before after,
    enumerate_from k s =
      before ++ (k + Z.of_nat n, String c EmptyString) :: after /\
    forall j c', (j, c') ∈ after -> k + Z.of_nat n < j.
Proof.
  induction s as [|a s IH]; intros k n c Hget; [done|].
  destruct n as [|n]; cbn in Hget.
  - injection Hget as ->. exists [], (enumerate_from (k + 1) s).
    split; [cbn [enumerate_from app Z.of_nat]; by rewrite Z.add_0_r|].
    intros j c' Hin. apply enumerate_from_range in Hin. lia.
  - destruct (IH (k + 1) n c Hget) as (before & after & Heq & Hlater).
    exists ((k, String a EmptyString) :: before), after. split.
    + cbn [enumerate_from]. rewrite Heq.
      by replace (k + Z.of_nat (S n)) with (k + 1 + Z.of_nat n) by lia.
    + intros j c' Hin. apply Hlater in Hin. lia.
Qed.

Lemma direction_step direction g dx dy g' :
  get_directional_reference direction g = (Ok (dx, dy), g') ->
  g' = g /\ (dx <> 0 \/ dy <> 0) /\ -1 <= dx <= 1 /\ -1 <= dy <= 1.
Proof.
  unfold get_directional_reference.
  repeat (match goal with
          | |- context [?a =? ?b] => destruct (a =? b)
          end; [unfold ret; intros [= <- <- <-]; split; [done|lia]|]).
  by unfold raise.
Qed.

Lemma string_cell_inj ox oy x y dx dy i j :
  dx <> 0 \/ dy <> 0 ->
  string_cell ox oy x y dx dy i = string_cell ox oy x y dx dy j -> i = j.
Proof. unfold string_cell. intros Hd [= Hx Hy]. nia. Qed.

(** [draw_string] once its two look-ups have succeeded: it returns
    normally, every in-bounds character is stored at its own cell, and a
    key that no in-bounds character targets keeps its binding. *)
Lemma draw_string_spec g w h x y s attr direction origin ox oy dx dy :
  screen_width g = Some w ->
  screen_height g = Some h ->
  get_origin_reference origin g = (Ok (ox, oy), g) ->
  get_directional_reference direction g = (Ok (dx, dy), g) ->
  exists g',
    draw_string (x, y) s attr direction origin g = (Ok tt, g') /\
    (forall n c,
       String.get n s = Some c ->
       in_bounds w h (string_cell ox oy x y dx dy (Z.of_nat n)) = true ->
       pixels g' !! to_device h (string_cell ox oy x y dx dy (Z.of_nat n))
         = Some (String c EmptyString, attr) /\
       flush_shows g'
         (to_device h (string_cell ox oy x y dx dy (Z.of_nat n)))
         (String c EmptyString, attr)) /\
    (forall k,
       (forall n, (n < String.length s)%nat ->
          in_bounds w h (string_cell ox oy x y dx dy (Z.of_nat n)) = true ->
          to_device h (string_cell ox oy x y dx dy (Z.of_nat n)) <> k) ->
       pixels g' !! k = pixels g !! k) /\
    g' = set_pixels (pixels g') g.
Proof.
  intros Hw Hh Horigin Hdir.
  destruct (direction_step _ _ _ _ _ Hdir) as (_ & Hstep & _).
  pose (f := fun ic : Z * string =>
               (string_cell ox oy x y dx dy ic.1, ic.2, attr)).
  assert (Hrun : draw_string (x, y) s attr direction origin g =
            (Ok tt,
             set_pixels (fold_left (put w h) (f <$> enumerate s) (pixels g)) g)).
  { unfold draw_string.
    rewrite (bind_ok _ _ _ _ _ Horigin). cbn beta iota.
    rewrite (bind_ok _ _ _ _ _ Hdir). cbn beta iota.
    rewrite <- (draws_spec w h) by done.
    rewrite for_each_fmap.
    by rewrite (for_each_ext _ _ (fun a => draw_call (f a))) by by intros [i c]. }
  eexists. split; [exact Hrun|]. cbn [pixels set_pixels].
  assert (Hcell : forall n c,
    String.get n s = Some c ->
    in_bounds w h (string_cell ox oy x y dx dy (Z.of_nat n)) = true ->
    fold_left (put w h) (f <$> enumerate s) (pixels g)
      !! to_device h (string_cell ox oy x y dx dy (Z.of_nat n))
      = Some (String c EmptyString, attr)).
  { intros n c Hget Hb.
    destruct (enumerate_from_split s 0 n c Hget)
      as (before & after & Heq & Hlater).
    unfold enumerate. rewrite Heq, fmap_app, fmap_cons.
    apply (fold_put_last w h (f <$> before) (f <$> after)); [done|].
    intros coord' ch' a' Hin _ Hdev.
    apply list_elem_of_fmap in Hin as ([j c'] & Hf & Hin).
    injection Hf as -> -> ->. apply Hlater in Hin.
    apply to_device_inj, string_cell_inj in Hdev; [|done].
    cbn [fst] in Hdev. lia. }
  split; [|split; [|done]].
  - intros n c Hget Hb. split; [by apply Hcell|].
    apply (flush_shows_device _ w h); [done|done|done|].
    by apply Hcell.
  - intros k Hk. apply fold_put_other.
    intros coord ch a Hin Hb.
    apply list_elem_of_fmap in Hin as ([j c'] & Hf & Hin).
    injection Hf as -> -> ->. apply enumerate_from_range in Hin.
    cbn [fst] in *. specialize (Hk (Z.to_nat j)).
    rewrite Z2Nat.id in Hk by lia. apply Hk; [lia|done].
Qed.

End DrawString.

(** C2.  Once the origin anchor has resolved to [(ox, oy)] and the
    direction to the unit step [(dx, dy)], [draw_string] writes the
    character of index [i] at [(ox + x + dx*i, oy + y + dy*i)], testing
    the bounds for each character on its own: an in-bounds character is
    stored (and flushed) at its device cell, and no other key changes, so
    out-of-bounds characters are skipped one by one.  On an 80 by 24
    screen, "HI" drawn at [(0, 0)] rightwards from BOTTOM_LEFT gives
    'H' at device cell [(23, 0)] and 'I' at [(23, 1)]. *)
Theorem draw_string_cells g w h x y s attr direction origin ox oy dx dy :
  screen_width g = Some w ->
  screen_height g = Some h ->
  get_origin_reference origin g = (Ok (ox, oy), g) ->
  get_directional_reference direction g = (Ok (dx, dy), g) ->
  (exists g',
     draw_string (x, y) s attr direction origin g = (Ok tt, g') /\
     (forall n c,
        String.get n s = Some c ->
        in_bounds w h (ox + (x + dx * Z.of_nat n), oy + (y + dy * Z.of_nat n))
          = true ->
        pixels g'
          !! to_device h (ox + (x + dx * Z.of_nat n), oy + (y + dy * Z.of_nat n))
          = Some (String c EmptyString, attr) /\
        flush_shows g'
          (to_device h (ox + (x + dx * Z.of_nat n), oy + (y + dy * Z.of_nat n)))
          (String c EmptyString, attr)) /\
     (forall k,
        (forall n, (n < String.length s)%nat ->
           in_bounds w h (ox + (x + dx * Z.of_nat n), oy + (y + dy * Z.of_nat n))
             = true ->
           to_device h (ox + (x + dx * Z.of_nat n), oy + (y + dy * Z.of_nat n))
             <> k) ->
        pixels g' !! k = pixels g !! k) /\
     g' = set_pixels (pixels g') g) /\
  (w = 80 -> h = 24 ->
   exists g',
     draw_string (0, 0) "HI" attr RIGHT BOTTOM_LEFT g = (Ok tt, g') /\
     pixels g' !! (23, 0) = Some ("H", attr) /\
     pixels g' !! (23, 1) = Some ("I", attr)).
Proof.
  intros Hw Hh Horigin Hdir. split.
  - exact (draw_string_spec g w h x y s attr direction origin ox oy dx dy
             Hw Hh Horigin Hdir).
  - intros -> ->.
    destruct (draw_string_spec g 80 24 0 0 "HI" attr RIGHT BOTTOM_LEFT
                0 0 1 0 Hw Hh eq_refl eq_refl) as (g' & Hrun & Hcells & _).
    exists g'. split; [exact Hrun|]. split.
    + by apply (Hcells 0%nat "H"%char).
    + by apply (Hcells 1%nat "I"%char).
Qed.

Lemma draw_string_cells_witness :
  exists g',
    draw_string (0, 0) "HI" A_NORMAL RIGHT BOTTOM_LEFT gui_80x24 = (Ok tt, g') /\
    pixels g' !! (23, 0) = Some ("H", A_NORMAL) /\
    pixels g' !! (23, 1) = Some ("I", A_NORMAL).
Proof.
  apply (proj2 (draw_string_cells gui_80x24 80 24 0 0 "HI" A_NORMAL
                  RIGHT BOTTOM_LEFT 0 0 1 0 eq_refl eq_refl eq_refl eq_refl));
    reflexivity.
Defined.

(** * Effects of the methods on the object *)

Section Respects.

Context (R : relation GUI) `{!PreOrder R}.

Lemma respects_ret {A} (a : A) : respects R (ret a).
Proof. by intros g. Qed.

Lemma respects_raise {A} e : respects R (@raise A e).
Proof. by intros g. Qed.

Lemma respects_bind {A B} (m : M A) (k : A -> M B) :
  respects R m -> (forall a, respects R (k a)) -> respects R (bind m k).
Proof.
  intros Hm Hk g. unfold bind. specialize (Hm g).
  destruct (m g) as [[a|e] g1]; cbn in *; [|done].
  etrans; [exact Hm|apply Hk].
Qed.

Lemma respects_try_except {A} (m : M A) (handler : exn -> M A) :
  respects R m -> (forall e, respects R (handler e)) ->
  respects R (try_except m handler).
Proof.
  intros Hm Hh g. unfold try_except. specialize (Hm g).
  destruct (m g) as [[a|e] g1]; cbn in *; [done|].
  etrans; [exact Hm|apply Hh].
Qed.

Lemma respects_for_each {A} (l : list A) (body : A -> M unit) :
  (forall a, respects R (body a)) -> respects R (for_each l body).
Proof.
  intros Hb. induction l as [|a l IH]; cbn [for_each].
  - apply respects_ret.
  - apply respects_bind; [apply Hb|done].
Qed.

Lemma respects_get_width : respects R get_screen_width.
Proof.
  intros g. unfold get_screen_width. by destruct (screen_width g).
Qed.

Lemma respects_get_height : respects R get_screen_height.
Proof.
  intros g. unfold get_screen_height. by destruct (screen_height g).
Qed.

Lemma respects_direction d : respects R (get_directional_reference d).
Proof.
  unfold get_directional_reference.
  repeat (match goal with
          | |- context [?a =? ?b] => destruct (a =? b)
          end; [apply respects_ret|]).
  apply respects_raise.
Qed.

Lemma respects_origin o : respects R (get_origin_reference o).
Proof.
  unfold get_origin_reference.
  repeat (match goal with
          | |- context [?a =? ?b] => destruct (a =? b)
          end;
          [repeat first [apply respects_ret | apply respects_get_width
                        | apply respects_get_height
                        | apply respects_bind; [|intros ?] ]|]).
  apply respects_raise.
Qed.

(** Writing to the screen and reading a pixel. *)
Hypothesis R_screen : forall g sc, R g (set_screen sc g).

Lemma respects_flush : respects R flush.
Proof.
  unfold flush.
  apply respects_bind; [apply respects_get_height|intros h].
  apply respects_for_each. intros y.
  apply respects_bind; [apply respects_get_width|intros w].
  apply respects_for_each. intros x.
  apply respects_bind; [by intros g|intros p g]. apply R_screen.
Qed.

(** [draw] and [draw_string] respect [R] as soon as storing a pixel
    does. *)
Hypothesis R_pixels : forall g p, R g (set_pixels p g).

Lemma respects_draw coord character attr :
  respects R (draw coord character attr).
Proof.
  destruct coord as [x y]. unfold draw.
  apply respects_bind.
  - destruct (0 <=? x); [|apply respects_ret].
    apply respects_bind; [apply respects_get_width|intros w].
    destruct (x <? w); [|apply respects_ret].
    destruct (0 <=? y); [|apply respects_ret].
    apply respects_bind; [apply respects_get_height|intros h].
    apply respects_ret.
  - intros [|]; [|apply respects_ret].
    apply respects_bind; [apply respects_get_height|intros h].
    intros g. apply R_pixels.
Qed.

Lemma respects_draw_string coord s attr direction origin :
  respects R (draw_string coord s attr direction origin).
Proof.
  destruct coord as [x y]. unfold draw_string.
  apply respects_bind; [apply respects_origin|intros [ox oy]].
  apply respects_bind; [apply respects_direction|intros [dx dy]].
  apply respects_for_each. intros [i c]. apply respects_draw.
Qed.

End Respects.

#[global] Instance stays_stopped_preorder : PreOrder stays_stopped.
Proof.
  split; [intros g Hg; exact Hg|]. intros a b c Hab Hbc Ha. auto.
Qed.

#[global] Instance same_pixels_preorder : PreOrder same_pixels.
Proof.
  split; [by intros g|]. unfold same_pixels. intros a b c Hab Hbc. congruence.
Qed.

Section Stopped.

Lemma stopped_flush_clear : respects stays_stopped (flush >> clear).
Proof.
  apply (respects_bind stays_stopped); [|by intros _ g Hg].
  apply (respects_flush stays_stopped). by intros g sc Hg.
Qed.

Lemma render_handler_spec e g :
  render_handler e g =
    (Ok tt,
     set_gui_log
       (gui_log g ++
          ["Render thread exception, " +:+ format_type (exn_type e) +:+ ": "
             +:+ exn_msg e])
       (set_running false g)).
Proof. reflexivity. Qed.

Lemma input_handler_spec e g :
  input_handler e g =
    (Ok tt,
     set_gui_log
       (gui_log g ++
          [if is_interrupt (exn_type e)
           then "Input thread received Keyboard Interrupt / EOF"
           else "Input thread exception, " +:+ format_type (exn_type e)
                  +:+ ": " +:+ exn_msg e])
       (set_running false g)).
Proof. unfold input_handler. by destruct (is_interrupt (exn_type e)). Qed.

Lemma stopped_api call : respects stays_stopped (api call).
Proof.
  destruct call; cbn [api].
  - by intros g Hg.
  - by intros g Hg.
  - apply (respects_draw stays_stopped). by intros g p Hg.
  - apply (respects_draw_string stays_stopped). by intros g p Hg.
  - apply (respects_bind stays_stopped); [|by intros ? g Hg].
    apply (respects_direction stays_stopped).
  - apply (respects_bind stays_stopped); [|by intros ? g Hg].
    apply (respects_origin stays_stopped).
Qed.

Lemma render_phase_stopped m next ev s :
  respects stays_stopped m ->
  stays_stopped (gui s) (gui (render_phase m next ev s)).
Proof.
  intros Hm. unfold render_phase. specialize (Hm (gui s)).
  destruct (m (gui s)) as [[[]|e] g1]; [exact Hm|].
  rewrite render_handler_spec. by intros _.
Qed.

Lemma input_phase_stopped m ev s :
  respects stays_stopped m ->
  stays_stopped (gui s) (gui (input_phase m ev s)).
Proof.
  intros Hm. unfold input_phase. specialize (Hm (gui s)).
  destruct (m (gui s)) as [[[]|e] g1]; [exact Hm|].
  rewrite input_handler_spec. by intros _.
Qed.

Lemma step_stopped hk l s :
  hooks_keep_stopped hk -> stays_stopped (gui s) (gui (step hk l s)).
Proof.
  intros (_ & Hpre & Hrender & Hpost & Hkey).
  destruct l as [size|got|]; cbn [step].
  - unfold render_step. destruct (rpc s).
    + destruct (gui_bool (gui s)); reflexivity.
    + apply render_phase_stopped. by intros g Hg.
    + by apply render_phase_stopped.
    + by apply render_phase_stopped.
    + by apply render_phase_stopped.
    + apply render_phase_stopped, stopped_flush_clear.
    + reflexivity.
  - unfold input_step. destruct (ipc s).
    + destruct (gui_bool (gui s)); reflexivity.
    + destruct got as [key|e].
      * destruct (key =? -1); reflexivity.
      * apply input_phase_stopped. by intros g Hg.
    + by apply input_phase_stopped.
    + reflexivity.
  - unfold interrupt_step.
    destruct (rpc s), (ipc s); try reflexivity; by intros _.
Qed.

Lemma run_cons hk l sched s :
  run hk (l :: sched) s = run hk sched (step hk l s).
Proof. reflexivity. Qed.

Lemma run_app hk sched1 sched2 s :
  run hk (sched1 ++ sched2) s = run hk sched2 (run hk sched1 s).
Proof. apply fold_left_app. Qed.

Lemma run_stopped hk sched : forall s,
  hooks_keep_stopped hk -> stays_stopped (gui s) (gui (run hk sched s)).
Proof.
  induction sched as [|l sched IH]; intros s Hhk.
  - reflexivity.
  - rewrite run_cons. etrans; [by apply step_stopped|by apply IH].
Qed.

End Stopped.

(** ** What the threads record *)

Section Traces.

Lemma render_phase_trace m next ev s :
  trace (render_phase m next ev s) = trace s ++ ev.
Proof.
  unfold render_phase. destruct (m (gui s)) as [[[]|e] g1]; [done|].
  by rewrite render_handler_spec.
Qed.

Lemma input_phase_trace m ev s :
  trace (input_phase m ev s) = trace s ++ ev /\
  rpc (input_phase m ev s) = rpc s.
Proof.
  unfold input_phase. destruct (m (gui s)) as [[[]|e] g1]; [done|].
  by rewrite input_handler_spec.
Qed.

Lemma interrupt_step_spec s :
  trace (interrupt_step s) = trace s /\ rpc (interrupt_step s) = rpc s.
Proof.
  unfold interrupt_step.
  by destruct (rpc s) eqn:Hr, (ipc s) eqn:Hi; cbn; rewrite ?Hr.
Qed.

Lemma render_try_raises hk size g e g1 :
  render_hook_raises hk (snd (sample size g)) e g1 ->
  render_try hk size g = (Raise e, g1).
Proof.
  unfold render_try.
  intros [Hpre|[(ga & Hpre & Hr)|(ga & gb & Hpre & Hr & Hpost)]];
    unfold bind at 1; cbn [sample modify snd] in *.
  - by rewrite (bind_raise _ _ _ _ _ Hpre).
  - rewrite (bind_ok _ _ _ _ _ Hpre).
    by rewrite (bind_raise _ _ _ _ _ Hr).
  - rewrite (bind_ok _ _ _ _ _ Hpre), (bind_ok _ _ _ _ _ Hr).
    by rewrite (bind_raise _ _ _ _ _ Hpost).
Qed.

(** While the controller is stopped, a step never enters the body of the
    render loop; if the render thread is idle it stays idle and none of
    its hooks is called. *)
Lemma step_quiet hk l s :
  running (gui s) = false ->
  exists evs,
    trace (step hk l s) = trace s ++ evs /\
    (EvTick ∉ evs) /\
    (render_idle s -> render_idle (step hk l s) /\ no_render_hook evs).
Proof.
  intros Hstop. unfold render_idle, no_render_hook.
  destruct l as [size|got|]; cbn [step].
  - unfold render_step, gui_bool. rewrite Hstop.
    destruct (rpc s) eqn:Hpc;
      try (eexists; split; [apply render_phase_trace|];
           split; [by intros [=]%list_elem_of_singleton || apply not_elem_of_nil|];
           by intros [|]).
    + exists []. cbn. rewrite app_nil_r.
      split; [done|]. split; [apply not_elem_of_nil|].
      split; [by right|]. by intros name Hin%elem_of_nil.
    + exists []. rewrite app_nil_r, Hpc.
      split; [done|]. split; [apply not_elem_of_nil|].
      split; [by right|]. by intros name Hin%elem_of_nil.
  - unfold input_step, gui_bool. rewrite Hstop.
    destruct (ipc s) eqn:Hpc.
    + exists []. cbn. rewrite app_nil_r.
      split; [done|]. split; [apply not_elem_of_nil|].
      split; [done|]. by intros name Hin%elem_of_nil.
    + destruct got as [key|e].
      * exists []. rewrite app_nil_r.
        destruct (key =? -1); cbn;
          (split; [done|]; split; [apply not_elem_of_nil|];
           split; [done|]; by intros name Hin%elem_of_nil).
      * exists []. destruct (input_phase_trace (raise e) [] s) as [-> ->].
        split; [done|]. split; [apply not_elem_of_nil|].
        split; [done|]. by intros name Hin%elem_of_nil.
    + exists [EvHook (HKeypress key)].
      destruct (input_phase_trace (keypress hk key) [EvHook (HKeypress key)] s)
        as [-> ->].
      split; [done|]. split; [by intros [=]%list_elem_of_singleton|].
      split; [done|]. intros name [= ->]%list_elem_of_singleton. eauto.
    + exists []. rewrite app_nil_r.
      split; [done|]. split; [apply not_elem_of_nil|].
      split; [done|]. by intros name Hin%elem_of_nil.
  - exists []. rewrite app_nil_r.
    destruct (interrupt_step_spec s) as [-> ->].
    split; [done|]. split; [apply not_elem_of_nil|].
    split; [done|]. by intros name Hin%elem_of_nil.
Qed.

Lemma run_quiet hk sched : forall s,
  hooks_keep_stopped hk ->
  running (gui s) = false ->
  exists evs,
    trace (run hk sched s) = trace s ++ evs /\
    (EvTick ∉ evs) /\
    (render_idle s -> no_render_hook evs).
Proof.
  induction sched as [|l sched IH]; intros s Hhk Hstop.
  - exists []. rewrite app_nil_r. split; [done|].
    split; [apply not_elem_of_nil|].
    intros _ name Hin. by apply elem_of_nil in Hin.
  - rewrite run_cons.
    destruct (step_quiet hk l s Hstop) as (ev1 & Ht1 & Hn1 & Hidle1).
    destruct (IH (step hk l s) Hhk (step_stopped hk l s Hhk Hstop))
      as (ev2 & Ht2 & Hn2 & Hidle2).
    exists (ev1 ++ ev2). rewrite Ht2, Ht1, app_assoc.
    split; [done|]. split; [by apply not_elem_of_app|].
    intros Hidle name [Hin|Hin]%elem_of_app.
    + by apply (proj2 (Hidle1 Hidle)).
    + by apply (Hidle2 (proj1 (Hidle1 Hidle))).
Qed.

End Traces.

(** ** Sample applications *)

Section Samples.

Lemma demo_hooks_keep_stopped : hooks_keep_stopped demo_hooks.
Proof.
  repeat split; try (by intros g Hg).
  all: try apply
         (stopped_api (CallDrawString (0, 0) "HI" A_NORMAL RIGHT BOTTOM_LEFT)).
  all: intros key; cbn; destruct (key =? 113); by intros g Hg.
Qed.

Lemma failing_hooks_keep_stopped : hooks_keep_stopped failing_hooks.
Proof.
  repeat split; try (by intros g Hg).
  all: try intros key.
  all: apply (stopped_api (CallDrawString (0, 0) "HI" A_NORMAL 99 BOTTOM_LEFT)).
Qed.

End Samples.

(** * The life cycle *)

(** C9.  The running flag is true from construction; [stop] sets it to
    false, and any number of [stop] calls leaves the object as one call
    does; once the flag is false, no call of the API, no start-up and no
    step of either thread sets it back to true (the hooks of the
    application not doing so themselves). *)
Theorem running_single_shot hk :
  hooks_keep_stopped hk ->
  running init = true /\
  (forall g, running (snd (stop g)) = false) /\
  (forall g n,
     Nat.iter (S n) (fun g0 => snd (stop g0)) g = snd (stop g)) /\
  (forall g call, running g = false -> running (snd (api call g)) = false) /\
  (forall g s, running g = false -> boot hk g = Ok s ->
     running (gui s) = false) /\
  (forall s sched, running (gui s) = false ->
     running (gui (run hk sched s)) = false).
Proof.
  intros Hhk. split; [done|]. split; [done|]. split; [|split; [|split]].
  - intros g n. induction n as [|n IH]; [done|].
    change (Nat.iter (S (S n)) (fun g0 => snd (stop g0)) g)
      with (snd (stop (Nat.iter (S n) (fun g0 => snd (stop g0)) g))).
    by rewrite IH.
  - intros g call. apply stopped_api.
  - intros g s Hstop. unfold boot.
    assert (Hm : respects stays_stopped
              (modify (set_gui_log []) >> log ["GUI start"] >> setup hk)).
    { apply (respects_bind stays_stopped); [by intros g0 Hg0|intros _].
      apply (respects_bind stays_stopped); [by intros g0 Hg0|intros _].
      apply Hhk. }
    specialize (Hm g Hstop).
    destruct ((modify (set_gui_log []) >> log ["GUI start"] >> setup hk) g)
      as [[[]|e] g1]; [|done].
    by intros [= <-].
  - intros s sched. by apply run_stopped.
Qed.

Lemma running_single_shot_witness :
  running (snd (api (CallDraw (0, 0) "#" A_NORMAL) (snd (stop gui_80x24))))
    = false /\
  running
    (gui (run demo_hooks (replicate 7 (LRender (24, 80)))
            (mkSys (snd (stop gui_80x24)) RRender ITop []))) = false.
Proof.
  pose proof (running_single_shot demo_hooks demo_hooks_keep_stopped)
    as (_ & _ & _ & Hapi & _ & Hrun).
  split.
  - apply Hapi. reflexivity.
  - apply Hrun. reflexivity.
Defined.

(** C5, as the code has it.  When [pre_render], [render] or [post_render]
    raises, the render loop catches the exception at its boundary: the
    pass returns normally, the controller is stopped and the log ends with
    the type and message of the failure.  When [keypress] raises, the input
    loop does the same, except that an exception whose class is
    [KeyboardInterrupt], [EOFError] or derived from one of them is logged
    with the fixed line of the interrupt clause, without type or message.
    Once the controller is stopped, and as long as no hook of the
    application sets the running flag back, no later tick begins, and a
    render thread that caught the failure itself calls no hook again. *)
Theorem hook_failure_stops hk :
  (forall size g e g1,
     render_hook_raises hk (snd (sample size g)) e g1 ->
     exists g',
       render_iteration hk size g = (Ok tt, g') /\
       running g' = false /\
       last (gui_log g') =
         Some ("Render thread exception, " +:+ format_type (exn_type e)
                 +:+ ": " +:+ exn_msg e)) /\
  (forall key g e g1,
     key <> -1 ->
     keypress hk key g = (Raise e, g1) ->
     exists g',
       input_iteration hk (Ok key) g = (Ok tt, g') /\
       running g' = false /\
       last (gui_log g') =
         Some (if is_interrupt (exn_type e)
               then "Input thread received Keyboard Interrupt / EOF"
               else "Input thread exception, " +:+ format_type (exn_type e)
                      +:+ ": " +:+ exn_msg e)) /\
  (forall size s e g1,
     (rpc s = RPre /\ pre_render hk (gui s) = (Raise e, g1)) \/
     (rpc s = RRender /\ render hk (gui s) = (Raise e, g1)) \/
     (rpc s = RPost /\ post_render hk (gui s) = (Raise e, g1)) ->
     render_idle (step hk (LRender size) s) /\
     running (gui (step hk (LRender size) s)) = false) /\
  (hooks_keep_stopped hk ->
   forall s sched,
     running (gui s) = false ->
     exists evs,
       trace (run hk sched s) = trace s ++ evs /\
       (EvTick ∉ evs) /\
       (render_idle s -> no_render_hook evs)).
Proof.
  split; [|split; [|split]].
  - intros size g e g1 Hraise.
    apply render_try_raises in Hraise.
    unfold render_iteration, try_except. rewrite Hraise, render_handler_spec.
    eexists. split; [done|]. split; [done|]. apply last_snoc.
  - intros key g e g1 Hkey Hraise.
    unfold input_iteration, try_except, input_try.
    apply Z.eqb_neq in Hkey. rewrite Hkey, Hraise, input_handler_spec.
    eexists. split; [done|]. split; [done|]. apply last_snoc.
  - intros size s e g1 Hraise. unfold render_idle. cbn [step].
    unfold render_step, render_phase.
    destruct Hraise as [[-> ->]|[[-> ->]|[-> ->]]];
      by rewrite render_handler_spec; split; [left|].
  - intros Hhk s sched Hstop. by apply run_quiet.
Qed.

Lemma hook_failure_stops_witness :
  (exists g',
     render_iteration failing_hooks (24, 80) init = (Ok tt, g') /\
     running g' = false /\
     last (gui_log g') =
       Some "Render thread exception, <class 'ValueError'>: Unknown direction '99'") /\
  (exists g',
     input_iteration failing_hooks (Ok 120) gui_80x24 = (Ok tt, g') /\
     running g' = false /\
     last (gui_log g') =
       Some "Input thread exception, <class 'ValueError'>: Unknown direction '99'") /\
  (exists g',
     input_iteration eof_subclass_hooks (Ok 120) gui_80x24 = (Ok tt, g') /\
     running g' = false /\
     last (gui_log g') =
       Some "Input thread received Keyboard Interrupt / EOF") /\
  (exists evs,
     trace (run failing_hooks (replicate 3 (LRender (24, 80)))
              (mkSys (snd (stop gui_80x24)) RTop ITop []))
       = [] ++ evs /\
     (EvTick ∉ evs) /\
     (render_idle (mkSys (snd (stop gui_80x24)) RTop ITop []) ->
      no_render_hook evs)).
Proof.
  pose proof (hook_failure_stops failing_hooks)
    as (Hrender & Hkey & _ & Hquiet).
  pose proof (hook_failure_stops eof_subclass_hooks) as (_ & Hsub & _).
  split; [|split; [|split]]; [| |
    apply (Hsub 120 gui_80x24
             (mkExn (Class "asyncio.exceptions.IncompleteReadError" [EOFError])
                    "0 bytes read on a total of 4 expected bytes")
             gui_80x24); [lia|reflexivity] |].
  - apply (Hrender (24, 80) init
             (mkExn ValueError "Unknown direction '99'") gui_80x24).
    right. left. exists gui_80x24. split; reflexivity.
  - apply (Hkey 120 gui_80x24
             (mkExn ValueError "Unknown direction '99'") gui_80x24).
    + lia.
    + reflexivity.
  - apply (Hquiet failing_hooks_keep_stopped
             (mkSys (snd (stop gui_80x24)) RTop ITop [])).
    reflexivity.
Defined.

(** C5 as stated fails for [keypress]: an [EOFError("boom")] raised by the
    hook is caught by the interrupt clause, and the line logged carries
    neither the type nor the message of the failure. *)
Lemma keypress_eof_log_cex :
  keypress eof_hooks 120 gui_80x24
    = (Raise (mkExn EOFError "boom"), gui_80x24) /\
  input_iteration eof_hooks (Ok 120) gui_80x24 =
    (Ok tt,
     set_gui_log ["Input thread received Keyboard Interrupt / EOF"]
       (set_running false gui_80x24)) /\
  gui_log (snd (input_iteration eof_hooks (Ok 120) gui_80x24)) <>
    ["Input thread exception, <class 'EOFError'>: boom"] /\
  forall line,
    line ∈ gui_log (snd (input_iteration eof_hooks (Ok 120) gui_80x24)) ->
    String.index 0 "EOFError" line = None /\
    String.index 0 "boom" line = None.
Proof.
  split; [reflexivity|]. split; [reflexivity|]. split; [discriminate|].
  intros line Hin. apply list_elem_of_singleton in Hin as ->.
  split; reflexivity.
Qed.

(** Why the last part of C5 needs its proviso: with a [keypress] that sets
    the running flag back, the tick whose [render] failed is followed by
    another tick, whose hooks run again. *)
Lemma restart_ticks_again :
  running (gui (run restart_hooks failed_tick_schedule
                  (mkSys init RTop ITop []))) = false /\
  trace (run restart_hooks restart_schedule (mkSys init RTop ITop [])) =
    [EvTick; EvHook HPreRender; EvHook HRender; EvHook (HKeypress 120);
     EvTick; EvHook HPreRender; EvHook HRender].
Proof. split; reflexivity. Qed.

(** * The pixel buffer across ticks *)

Section Ticks.

Lemma input_step_rpc hk got s : rpc (input_step hk got s) = rpc s.
Proof.
  unfold input_step. destruct (ipc s); try apply input_phase_trace; [|..|done].
  - by destruct (gui_bool (gui s)).
  - destruct got as [key|e]; [by destruct (key =? -1)|].
    apply input_phase_trace.
Qed.

Lemma boot_sys hk g s0 :
  boot hk g = Ok s0 -> rpc s0 = RTop /\ ipc s0 = ITop /\ trace s0 = [].
Proof.
  unfold boot.
  destruct ((modify (set_gui_log []) >> log ["GUI start"] >> setup hk) g)
    as [[[]|e] g1]; [|done].
  by intros [= <-].
Qed.


Lemma render_phase_cases m next ev s :
  (exists g', m (gui s) = (Ok tt, g') /\
     gui (render_phase m next ev s) = g' /\
     rpc (render_phase m next ev s) = next) \/
  (rpc (render_phase m next ev s) = RTop /\
   running (gui (render_phase m next ev s)) = false).
Proof.
  unfold render_phase. destruct (m (gui s)) as [[[]|e] g1].
  - left. by exists g1.
  - right. by rewrite render_handler_spec.
Qed.








End Ticks.




(** * The machine against the loop bodies

    Run without the other thread in between, the steps of a thread from
    the top of its [try] block to the loop test do to the object what one
    pass through the loop body does. *)

Section Refinement.

Lemma sample_spec size g : sample size g = (Ok tt, snd (sample size g)).
Proof. reflexivity. Qed.

Lemma render_phase_ok m next ev g r i t g' :
  m g = (Ok tt, g') ->
  render_phase m next ev (mkSys g r i t) = mkSys g' next i (t ++ ev).
Proof. unfold render_phase; cbn. by intros ->. Qed.

Lemma render_phase_raise m next ev g r i t e g' :
  m g = (Raise e, g') ->
  render_phase m next ev (mkSys g r i t) =
    mkSys (snd (render_handler e g')) RTop i (t ++ ev).
Proof. unfold render_phase; cbn. by intros ->. Qed.

Lemma render_tick_refines hk size s :
  rpc s = RSleep ->
  exists n,
    (n <= 5)%nat /\
    gui (run hk (replicate n (LRender size)) s)
      = snd (render_iteration hk size (gui s)) /\
    rpc (run hk (replicate n (LRender size)) s) = RTop /\
    ipc (run hk (replicate n (LRender size)) s) = ipc s.
Proof.
  destruct s as [g r i t]; cbn [rpc gui ipc]. intros ->.
  unfold render_iteration, try_except, render_try.
  rewrite (bind_ok _ _ _ _ _ (sample_spec size g)).
  remember (snd (sample size g)) as g0 eqn:Hg0.
  assert (Hstep1 : step hk (LRender size) (mkSys g RSleep i t)
                   = mkSys g0 RPre i (t ++ [])) by (by rewrite Hg0).
  destruct (pre_render hk g0) as [[[]|e] ga] eqn:Hpre.
  2:{ exists 2%nat. split; [lia|]. cbn [replicate]. 
      rewrite !run_cons, Hstep1. cbn [run fold_left step render_step rpc].
      rewrite (render_phase_raise _ _ _ _ _ _ _ _ _ Hpre).
      by rewrite (bind_raise _ _ _ _ _ Hpre). }
  rewrite (bind_ok _ _ _ _ _ Hpre).
  destruct (render hk ga) as [[[]|e] gb] eqn:Hrender.
  2:{ exists 3%nat. split; [lia|]. cbn [replicate].
      rewrite !run_cons, Hstep1. cbn [run fold_left step render_step rpc].
      rewrite (render_phase_ok _ _ _ _ _ _ _ _ Hpre).
      cbn [render_step rpc].
      rewrite (render_phase_raise _ _ _ _ _ _ _ _ _ Hrender).
      by rewrite (bind_raise _ _ _ _ _ Hrender). }
  rewrite (bind_ok _ _ _ _ _ Hrender).
  destruct (post_render hk gb) as [[[]|e] gc] eqn:Hpost.
  2:{ exists 4%nat. split; [lia|]. cbn [replicate].
      rewrite !run_cons, Hstep1. cbn [run fold_left step render_step rpc].
      rewrite (render_phase_ok _ _ _ _ _ _ _ _ Hpre).
      cbn [render_step rpc].
      rewrite (render_phase_ok _ _ _ _ _ _ _ _ Hrender).
      cbn [render_step rpc].
      rewrite (render_phase_raise _ _ _ _ _ _ _ _ _ Hpost).
      by rewrite (bind_raise _ _ _ _ _ Hpost). }
  rewrite (bind_ok _ _ _ _ _ Hpost).
  exists 5%nat. split; [lia|]. cbn [replicate].
  rewrite !run_cons, Hstep1. cbn [run fold_left step render_step rpc].
  rewrite (render_phase_ok _ _ _ _ _ _ _ _ Hpre).
  cbn [render_step rpc].
  rewrite (render_phase_ok _ _ _ _ _ _ _ _ Hrender).
  cbn [render_step rpc].
  rewrite (render_phase_ok _ _ _ _ _ _ _ _ Hpost).
  cbn [render_step rpc].
  destruct ((flush >> clear) gc) as [[[]|e] gd] eqn:Hflush.
  - by rewrite (render_phase_ok _ _ _ _ _ _ _ _ Hflush).
  - by rewrite (render_phase_raise _ _ _ _ _ _ _ _ _ Hflush).
Qed.

Lemma input_pass_refines hk got s :
  ipc s = IGetch ->
  exists n,
    (n <= 2)%nat /\
    gui (run hk (replicate n (LInput got)) s)
      = snd (input_iteration hk got (gui s)) /\
    ipc (run hk (replicate n (LInput got)) s) = ITop /\
    rpc (run hk (replicate n (LInput got)) s) = rpc s.
Proof.
  destruct s as [g r i t]; cbn [rpc gui ipc]. intros ->.
  unfold input_iteration, try_except, input_try.
  destruct got as [key|e].
  - destruct (key =? -1) eqn:Hkey.
    + exists 1%nat. split; [lia|].
      cbn [replicate run fold_left step input_step ipc]. by rewrite Hkey.
    + exists 2%nat. split; [lia|].
      cbn [replicate run fold_left step input_step ipc]. rewrite Hkey.
      cbn [input_step ipc]. unfold input_phase. cbn [gui rpc].
      destruct (keypress hk key g) as [[[]|e] g1]; [done|].
      by rewrite input_handler_spec.
  - exists 1%nat. split; [lia|].
    cbn [replicate run fold_left step input_step ipc].
    unfold input_phase. cbn [gui rpc raise].
    by rewrite input_handler_spec.
Qed.

End Refinement.

(** * Drawing at the edges *)

#[global] Instance grows_preorder : PreOrder grows.
Proof.
  split.
  - intros g. split; [by rewrite set_pixels_id|done].
  - intros a b c [Hab Hkab] [Hbc Hkbc]. split; [|by auto].
    rewrite Hbc at 1. by rewrite Hab.
Qed.

Section Edges.

Context (R : relation GUI) `{!PreOrder R}.

(** What [draw] and [draw_string] do to the object, for a relation that
    storing one pixel satisfies. *)
Hypothesis R_insert :
  forall g k v, R g (set_pixels (<[k := v]> (pixels g)) g).

Lemma respects_draw_insert coord character attr :
  respects R (draw coord character attr).
Proof.
  destruct coord as [x y]. unfold draw.
  apply (respects_bind R).
  - destruct (0 <=? x); [|apply (respects_ret R)].
    apply (respects_bind R); [apply (respects_get_width R)|intros w].
    destruct (x <? w); [|apply (respects_ret R)].
    destruct (0 <=? y); [|apply (respects_ret R)].
    apply (respects_bind R); [apply (respects_get_height R)|intros h].
    apply (respects_ret R).
  - intros [|]; [|apply (respects_ret R)].
    apply (respects_bind R); [apply (respects_get_height R)|intros h].
    intros g. apply R_insert.
Qed.

Lemma respects_draw_string_insert coord s attr direction origin :
  respects R (draw_string coord s attr direction origin).
Proof.
  destruct coord as [x y]. unfold draw_string.
  apply (respects_bind R); [apply (respects_origin R)|intros [ox oy]].
  apply (respects_bind R); [apply (respects_direction R)|intros [dx dy]].
  apply (respects_for_each R). intros [i c]. apply respects_draw_insert.
Qed.

End Edges.

Section Identifiers.

Lemma direction_known direction g :
  direction ∈ directions ->
  exists dx dy, get_directional_reference direction g = (Ok (dx, dy), g).
Proof.
  unfold directions. intros Hin.
  repeat (apply elem_of_cons in Hin as [->|Hin]; [by do 2 eexists|]).
  by apply elem_of_nil in Hin.
Qed.

(** Each anchor resolves to one of the three columns and one of the three
    rows. *)
Lemma origin_resolves origin g w h :
  screen_width g = Some w ->
  screen_height g = Some h ->
  origin ∈ origins ->
  exists ox oy,
    get_origin_reference origin g = (Ok (ox, oy), g) /\
    (ox = 0 \/ ox = w / 2 \/ ox = w - 1) /\
    (oy = 0 \/ oy = h / 2 \/ oy = h - 1).
Proof.
  intros Hw Hh Hin.
  assert (Hshift : forall n, Z.shiftr n 1 = n / 2)
    by (intros n; by rewrite Z.shiftr_div_pow2).
  unfold origins in Hin.
  repeat (apply elem_of_cons in Hin as [->|Hin];
          [do 2 eexists; split;
           [unfold get_origin_reference; cbn [Z.eqb Pos.eqb TOP_LEFT TOP_CENTER
              TOP_RIGHT CENTER_LEFT CENTER CENTER_RIGHT BOTTOM_LEFT
              BOTTOM_CENTER BOTTOM_RIGHT];
            unfold bind, ret, get_screen_width, get_screen_height;
            rewrite ?Hw, ?Hh, ?Hshift; reflexivity
           |tauto]|]).
  by apply elem_of_nil in Hin.
Qed.

End Identifiers.

(** X1.  Before the first render tick the size attributes do not exist:
    [draw] at a negative [x] is still a silent no-op, since the comparison
    chain stops before reading the width, while [draw] at any [x >= 0]
    raises [AttributeError]; every anchor but BOTTOM_LEFT raises it as
    well.  The object is left as it was in each case. *)
Theorem draw_before_first_tick g x y character attr origin :
  screen_width g = None ->
  screen_height g = None ->
  (x < 0 -> draw (x, y) character attr g = (Ok tt, g)) /\
  (0 <= x ->
   draw (x, y) character attr g =
     (Raise (attribute_error "screen_width"), g)) /\
  (origin ∈ origins -> origin <> BOTTOM_LEFT ->
   exists name,
     get_origin_reference origin g = (Raise (attribute_error name), g)) /\
  get_origin_reference BOTTOM_LEFT g = (Ok (0, 0), g).
Proof.
  intros Hw Hh. split; [|split; [|split; [|done]]].
  - intros Hx. unfold draw, bind, ret.
    by destruct (Z.leb_spec 0 x); [lia|].
  - intros Hx. unfold draw, bind, get_screen_width.
    destruct (Z.leb_spec 0 x); [|lia]. by rewrite Hw.
  - intros Hin Hne. unfold origins in Hin.
    repeat (apply elem_of_cons in Hin as [->|Hin];
            [try done;
             unfold get_origin_reference;
             cbn [Z.eqb Pos.eqb TOP_LEFT TOP_CENTER TOP_RIGHT CENTER_LEFT
                    CENTER CENTER_RIGHT BOTTOM_LEFT BOTTOM_CENTER BOTTOM_RIGHT];
             unfold bind, get_screen_width, get_screen_height;
             rewrite ?Hw, ?Hh; by eexists|]).
    by apply elem_of_nil in Hin.
Qed.

Lemma draw_before_first_tick_witness :
  draw (-1, 0) "#" A_NORMAL init = (Ok tt, init) /\
  draw (0, 0) "#" A_NORMAL init =
    (Raise (mkExn AttributeError "'GUI' object has no attribute 'screen_width'"),
     init) /\
  exists name,
    get_origin_reference CENTER init = (Raise (attribute_error name), init).
Proof.
  pose proof (draw_before_first_tick init (-1) 0 "#" A_NORMAL CENTER
                eq_refl eq_refl) as (Hneg & _ & Horigin & _).
  pose proof (draw_before_first_tick init 0 0 "#" A_NORMAL CENTER
                eq_refl eq_refl) as (_ & Hpos & _).
  split; [apply Hneg; lia|]. split; [apply Hpos; lia|].
  apply Horigin; [|discriminate].
  apply (bool_decide_unpack _). vm_compute. exact I.
Defined.

(** X2.  [draw_string] looks the origin up first and the direction next,
    before any character is drawn: an unknown origin raises its
    [ValueError] whatever the direction is, an unknown direction raises
    its own once the origin has resolved, and in both cases nothing is
    drawn, not even the characters that would have been in bounds. *)
Theorem draw_string_unknown_identifier g coord s attr direction origin :
  (origin ∉ origins ->
   draw_string coord s attr direction origin g =
     (Raise (mkExn ValueError ("Unknown origin '" +:+ pretty origin +:+ "'")),
      g)) /\
  (direction ∉ directions ->
   forall offset,
     get_origin_reference origin g = (Ok offset, g) ->
     draw_string coord s attr direction origin g =
       (Raise (mkExn ValueError
                 ("Unknown direction '" +:+ pretty direction +:+ "'")),
        g)).
Proof.
  destruct coord as [x y]. split.
  - intros Hnot. unfold draw_string.
    assert (Hraise : get_origin_reference origin g =
      (Raise (mkExn ValueError ("Unknown origin '" +:+ pretty origin +:+ "'")),
       g)).
    { unfold get_origin_reference.
      repeat (match goal with
              | |- context [?a =? ?b] =>
                  destruct (Z.eqb_spec a b) as [->|_];
                  [exfalso; apply Hnot; unfold origins;
                   rewrite list_elem_of_In; cbn; intuition|]
              end).
      done. }
    by rewrite (bind_raise _ _ _ _ _ Hraise).
  - intros Hnot [ox oy] Horigin. unfold draw_string.
    rewrite (bind_ok _ _ _ _ _ Horigin). cbn beta iota.
    assert (Hraise : get_directional_reference direction g =
      (Raise (mkExn ValueError
                ("Unknown direction '" +:+ pretty direction +:+ "'")), g)).
    { unfold get_directional_reference.
      repeat (match goal with
              | |- context [?a =? ?b] =>
                  destruct (Z.eqb_spec a b) as [->|_];
                  [exfalso; apply Hnot; unfold directions;
                   rewrite list_elem_of_In; cbn; intuition|]
              end).
      done. }
    by rewrite (bind_raise _ _ _ _ _ Hraise).
Qed.

Lemma draw_string_unknown_identifier_witness :
  draw_string (0, 0) "HI" A_NORMAL 99 LEFT gui_80x24 =
    (Raise (mkExn ValueError "Unknown origin '0'"), gui_80x24) /\
  draw_string (0, 0) "HI" A_NORMAL 99 CENTER gui_80x24 =
    (Raise (mkExn ValueError "Unknown direction '99'"), gui_80x24).
Proof.
  pose proof (draw_string_unknown_identifier gui_80x24 (0, 0) "HI" A_NORMAL
                99 LEFT) as [Horigin _].
  pose proof (draw_string_unknown_identifier gui_80x24 (0, 0) "HI" A_NORMAL
                99 CENTER) as [_ Hdirection].
  split.
  - apply Horigin. apply (bool_decide_unpack _). vm_compute. exact I.
  - apply (Hdirection ltac:(apply (bool_decide_unpack _); vm_compute; exact I)
             (40, 12)).
    reflexivity.
Defined.

(** X3.  Whatever its arguments and whether it returns or raises, a call
    of [draw] or [draw_string] changes nothing of the object but the pixel
    dictionary, and removes no key from it. *)
Theorem drawing_only_grows_buffer g :
  (forall coord character attr,
     grows g (snd (draw coord character attr g))) /\
  (forall coord s attr direction origin,
     grows g (snd (draw_string coord s attr direction origin g))).
Proof.
  assert (Hinsert : forall g0 k (v : pixel),
            grows g0 (set_pixels (<[k := v]> (pixels g0)) g0)).
  { intros g0 k v. split; [done|]. cbn. intros k' Hsome.
    destruct (decide (k = k')) as [->|Hne].
    - rewrite lookup_insert_eq. eauto.
    - by rewrite lookup_insert_ne. }
  split.
  - intros coord character attr.
    by apply (respects_draw_insert grows).
  - intros coord s attr direction origin.
    by apply (respects_draw_string_insert grows).
Qed.

(** X9.  On a screen with at least one cell every anchor lies on the
    screen: it resolves to an in-bounds coordinate, so the first character
    of a string drawn at offset [(0, 0)] from any anchor, in any
    direction, is stored at the anchor's cell. *)
Theorem anchors_on_screen g w h origin direction c s attr :
  screen_width g = Some w ->
  screen_height g = Some h ->
  0 < w ->
  0 < h ->
  origin ∈ origins ->
  direction ∈ directions ->
  exists ox oy g',
    get_origin_reference origin g = (Ok (ox, oy), g) /\
    in_bounds w h (ox, oy) = true /\
    draw_string (0, 0) (String c s) attr direction origin g = (Ok tt, g') /\
    pixels g' !! (h - (oy + 1), ox) = Some (String c EmptyString, attr).
Proof.
  intros Hw Hh Hwpos Hhpos Horigin Hdirection.
  destruct (origin_resolves origin g w h Hw Hh Horigin)
    as (ox & oy & Hres & Hox & Hoy).
  destruct (direction_known direction g Hdirection) as (dx & dy & Hdir).
  assert (Hhalf : forall n, 0 < n -> 0 <= n / 2 < n).
  { intros n Hn. split; [apply Z.div_pos; lia|].
    apply Z.div_lt_upper_bound; lia. }
  pose proof (Hhalf w Hwpos). pose proof (Hhalf h Hhpos).
  assert (Hb : in_bounds w h (ox, oy) = true) by (apply in_bounds_true; lia).
  destruct (draw_string_spec g w h 0 0 (String c s) attr direction origin
              ox oy dx dy Hw Hh Hres Hdir) as (g' & Hrun & Hcells & _).
  exists ox, oy, g'. split; [done|]. split; [done|]. split; [done|].
  specialize (Hcells 0%nat c eq_refl). unfold string_cell in Hcells.
  replace (ox + (0 + dx * Z.of_nat 0)) with ox in Hcells by lia.
  replace (oy + (0 + dy * Z.of_nat 0)) with oy in Hcells by lia.
  by apply Hcells.
Qed.

Lemma anchors_on_screen_witness :
  exists ox oy g',
    get_origin_reference TOP_RIGHT gui_80x24 = (Ok (ox, oy), gui_80x24) /\
    in_bounds 80 24 (ox, oy) = true /\
    draw_string (0, 0) "HI" A_NORMAL LEFT TOP_RIGHT gui_80x24 = (Ok tt, g') /\
    pixels g' !! (24 - (oy + 1), ox) = Some ("H", A_NORMAL).
Proof.
  apply (anchors_on_screen gui_80x24 80 24 TOP_RIGHT LEFT "H" "I" A_NORMAL);
    [reflexivity | reflexivity | lia | lia
    | apply (bool_decide_unpack _); vm_compute; exact I
    | apply (bool_decide_unpack _); vm_compute; exact I].
Defined.

(** X10.  The eight direction identifiers go round clockwise by eighths of
    a turn, starting at LEFT: adding 4 (modulo 8) gives the opposite step,
    adding 2 the step a quarter turn clockwise; two different identifiers
    never give the same step. *)
Theorem directions_go_clockwise g d dx dy :
  get_directional_reference d g = (Ok (dx, dy), g) ->
  get_directional_reference ((d + 4) mod 8) g = (Ok (- dx, - dy), g) /\
  get_directional_reference ((d + 2) mod 8) g = (Ok (dy, - dx), g) /\
  forall d', get_directional_reference d' g = (Ok (dx, dy), g) -> d' = d.
Proof.
  assert (Hcases : forall e ex ey,
    get_directional_reference e g = (Ok (ex, ey), g) ->
    (e = 0 /\ ex = -1 /\ ey = 0) \/ (e = 1 /\ ex = -1 /\ ey = 1) \/
    (e = 2 /\ ex = 0 /\ ey = 1) \/ (e = 3 /\ ex = 1 /\ ey = 1) \/
    (e = 4 /\ ex = 1 /\ ey = 0) \/ (e = 5 /\ ex = 1 /\ ey = -1) \/
    (e = 6 /\ ex = 0 /\ ey = -1) \/ (e = 7 /\ ex = -1 /\ ey = -1)).
  { intros e ex ey. unfold get_directional_reference.
    repeat (match goal with
            | |- context [?a =? ?b] => destruct (Z.eqb_spec a b) as [->|_]
            end; [unfold ret; intros [= <- <-]; tauto|]).
    by unfold raise. }
  intros Hd.
  split; [|split].
  - destruct (Hcases d dx dy Hd)
      as [H|[H|[H|[H|[H|[H|[H|H]]]]]]]; by destruct H as (-> & -> & ->).
  - destruct (Hcases d dx dy Hd)
      as [H|[H|[H|[H|[H|[H|[H|H]]]]]]]; by destruct H as (-> & -> & ->).
  - intros d' Hd'. apply Hcases in Hd, Hd'. lia.
Qed.

Lemma directions_go_clockwise_witness :
  get_directional_reference ((UP_LEFT + 4) mod 8) init = (Ok (1, -1), init) /\
  get_directional_reference ((UP_LEFT + 2) mod 8) init = (Ok (1, 1), init).
Proof.
  pose proof (directions_go_clockwise init UP_LEFT (-1) 1 eq_refl)
    as (Hopp & Hquarter & _).
  split; [exact Hopp|exact Hquarter].
Defined.

(** * The flush, cell by cell *)

Section FlushOrder.

Lemma concat_mjoin {A} (ls : list (list A)) : concat ls = mjoin ls.
Proof. induction ls as [|l ls IH]; [done|]. cbn. by rewrite IH. Qed.

Lemma flush_rows_same_length px w h :
  Forall (fun l : list addstr_call => length l = Z.to_nat w)
         (flush_row px w <$> seqZ 0 h).
Proof.
  apply Forall_fmap, Forall_forall. intros y _. unfold flush_row. cbn.
  by rewrite length_fmap, length_seqZ.
Qed.

Lemma length_flush_cells h w px :
  length (flush_cells h w px) = (Z.to_nat h * Z.to_nat w)%nat.
Proof.
  unfold flush_cells. rewrite concat_mjoin, length_join.
  rewrite (sum_list_fmap_same (Z.to_nat w)) by apply flush_rows_same_length.
  by rewrite length_fmap, length_seqZ.
Qed.

Lemma lookup_flush_cells h w px r c :
  0 <= r < h -> 0 <= c < w ->
  flush_cells h w px !! Z.to_nat (r * w + c)
    = Some (r, c, default BLANK_PIXEL (px !! (r, c))).
Proof.
  intros Hr Hc. unfold flush_cells. rewrite concat_mjoin.
  replace (Z.to_nat (r * w + c))
    with (Z.to_nat r * Z.to_nat w + Z.to_nat c)%nat by nia.
  apply (join_lookup_Some_same_length' (Z.to_nat w));
    [apply flush_rows_same_length|lia|].
  exists (flush_row px w r). split.
  - rewrite list_lookup_fmap, lookup_seqZ_lt by lia. cbn.
    do 2 f_equal. lia.
  - unfold flush_row. rewrite list_lookup_fmap, lookup_seqZ_lt by lia. cbn.
    by replace (0 + Z.of_nat (Z.to_nat c)) with c by lia.
Qed.

End FlushOrder.

(** X4.  With the size present, a flush returns normally, changes nothing
    of the object but the screen, and issues exactly [height * width]
    [addstr] calls, one per cell of the screen in row-major order: the
    call number [r * width + c] is for the cell [(r, c)] and carries the
    pixel stored under that key, or the blank pixel when there is none.
    No call is issued for a cell outside the screen, whatever keys the
    dictionary holds. *)
Theorem flush_row_major g w h :
  screen_width g = Some w ->
  screen_height g = Some h ->
  exists emitted,
    flush g = (Ok tt, set_screen (screen g ++ emitted) g) /\
    length emitted = (Z.to_nat h * Z.to_nat w)%nat /\
    (forall r c, 0 <= r < h -> 0 <= c < w ->
       emitted !! Z.to_nat (r * w + c)
         = Some (r, c, default BLANK_PIXEL (pixels g !! (r, c)))) /\
    (forall r c p, (r, c, p) ∈ emitted -> 0 <= r < h /\ 0 <= c < w).
Proof.
  intros Hw Hh. exists (flush_cells h w (pixels g)).
  split; [by apply flush_spec|]. split; [apply length_flush_cells|].
  split; [intros r c; apply lookup_flush_cells|].
  intros r c p Hin. apply elem_of_flush_cells in Hin. tauto.
Qed.

Lemma flush_row_major_witness :
  exists emitted,
    flush (snd (draw (1, 0) "#" 7 (snd (sample (2, 3) init))))
      = (Ok tt,
         set_screen
           (screen (snd (draw (1, 0) "#" 7 (snd (sample (2, 3) init))))
              ++ emitted)
           (snd (draw (1, 0) "#" 7 (snd (sample (2, 3) init))))) /\
    length emitted = 6%nat /\
    emitted !! 4%nat = Some (1, 1, ("#", 7)) /\
    emitted !! 0%nat = Some (0, 0, BLANK_PIXEL).
Proof.
  destruct (flush_row_major
              (snd (draw (1, 0) "#" 7 (snd (sample (2, 3) init)))) 3 2
              eq_refl eq_refl) as (emitted & Hrun & Hlen & Hcell & _).
  exists emitted. split; [exact Hrun|]. split; [exact Hlen|]. split.
  - apply (Hcell 1 1); lia.
  - apply (Hcell 0 0); lia.
Defined.

(** X5.  A tick whose three hooks return normally, leaving the size
    attributes in place, returns normally itself: the screen receives the
    flush of exactly what the hooks left in the buffer, the buffer ends
    empty, and the tick changes nothing else -- it neither logs nor
    touches the running flag. *)
Theorem tick_flushes_and_clears hk size g ga gb gc w h :
  pre_render hk (snd (sample size g)) = (Ok tt, ga) ->
  render hk ga = (Ok tt, gb) ->
  post_render hk gb = (Ok tt, gc) ->
  screen_width gc = Some w ->
  screen_height gc = Some h ->
  render_iteration hk size g =
    (Ok tt,
     set_pixels ∅ (set_screen (screen gc ++ flush_cells h w (pixels gc)) gc)).
Proof.
  intros Hpre Hrender Hpost Hw Hh.
  unfold render_iteration, try_except, render_try.
  rewrite (bind_ok _ _ _ _ _ (sample_spec size g)).
  rewrite (bind_ok _ _ _ _ _ Hpre), (bind_ok _ _ _ _ _ Hrender).
  rewrite (bind_ok _ _ _ _ _ Hpost).
  by rewrite (bind_ok _ _ _ _ _ (flush_spec gc w h Hw Hh)).
Qed.

Lemma tick_flushes_and_clears_witness :
  render_iteration demo_hooks (1, 2) init =
    (Ok tt,
     set_screen [(0, 0, ("H", A_NORMAL)); (0, 1, ("I", A_NORMAL))]
       (snd (sample (1, 2) init))).
Proof.
  apply (tick_flushes_and_clears demo_hooks (1, 2) init
           (snd (sample (1, 2) init))
           (snd (draw_string (0, 0) "HI" A_NORMAL RIGHT BOTTOM_LEFT
                   (snd (sample (1, 2) init))))
           (snd (draw_string (0, 0) "HI" A_NORMAL RIGHT BOTTOM_LEFT
                   (snd (sample (1, 2) init))))
           2 1); reflexivity.
Defined.

(** * The order of the hooks *)

Section Order.

Lemma order_run_snoc evs : forall ph ph1 ev,
  order_run ph evs = Some ph1 ->
  order_run ph (evs ++ [ev]) = order_step ph1 ev.
Proof.
  induction evs as [|e evs IH]; intros ph ph1 ev; cbn.
  - intros [= ->]. by destruct (order_step ph1 ev).
  - destruct (order_step ph e) as [ph'|]; [apply IH|done].
Qed.

Lemma render_phase_rpc m next ev s :
  rpc (render_phase m next ev s) = next \/
  rpc (render_phase m next ev s) = RTop.
Proof.
  destruct (render_phase_cases m next ev s) as [(g' & _ & _ & Hr)|[Hr _]];
    auto.
Qed.

Lemma render_step_sample hk size s :
  rpc s = RSleep ->
  render_step hk size s =
    mkSys (snd (sample size (gui s))) RPre (ipc s) (trace s ++ []).
Proof. unfold render_step. by intros ->. Qed.

(** The events recorded so far are in order, and the phase they end in is
    the one of the point the render thread is at. *)
Lemma step_ordered hk l s ph :
  order_run OIdle (trace s) = Some ph ->
  phase_at (rpc s) ph ->
  exists ph',
    order_run OIdle (trace (step hk l s)) = Some ph' /\
    phase_at (rpc (step hk l s)) ph'.
Proof.
  intros Hrun Hat. destruct l as [size|got|]; cbn [step].
  - destruct (rpc s) eqn:Hpc; cbn [phase_at] in Hat.
    + unfold render_step. rewrite Hpc.
      destruct (gui_bool (gui s)); cbn [trace rpc].
      * exists OTick. rewrite (order_run_snoc _ _ _ _ Hrun).
        split; [by destruct ph|done].
      * by exists ph.
    + rewrite render_step_sample by done. cbn [trace rpc].
      rewrite app_nil_r. by exists ph.
    + unfold render_step. rewrite Hpc, render_phase_trace.
      exists OPre. rewrite (order_run_snoc _ _ _ _ Hrun), Hat.
      split; [done|].
      by destruct (render_phase_rpc (pre_render hk) RRender
                     [EvHook HPreRender] s) as [-> | ->].
    + unfold render_step. rewrite Hpc, render_phase_trace.
      exists ORender. rewrite (order_run_snoc _ _ _ _ Hrun), Hat.
      split; [done|].
      by destruct (render_phase_rpc (render hk) RPost
                     [EvHook HRender] s) as [-> | ->].
    + unfold render_step. rewrite Hpc, render_phase_trace.
      exists OPost. rewrite (order_run_snoc _ _ _ _ Hrun), Hat.
      split; [done|].
      by destruct (render_phase_rpc (post_render hk) RFlush
                     [EvHook HPostRender] s) as [-> | ->].
    + unfold render_step. rewrite Hpc, render_phase_trace.
      exists OIdle. rewrite (order_run_snoc _ _ _ _ Hrun), Hat.
      split; [done|].
      by destruct (render_phase_rpc (flush >> clear) RTop [EvFlush] s)
        as [-> | ->].
    + unfold render_step. rewrite Hpc. exists ph. by rewrite Hpc.
  - unfold input_step. destruct (ipc s).
    + by destruct (gui_bool (gui s)); exists ph.
    + destruct got as [key|e]; [by destruct (key =? -1); exists ph|].
      destruct (input_phase_trace (raise e) [] s) as [-> ->].
      rewrite app_nil_r. by exists ph.
    + destruct (input_phase_trace (keypress hk key)
                  [EvHook (HKeypress key)] s) as [-> ->].
      exists ph. by rewrite (order_run_snoc _ _ _ _ Hrun).
    + by exists ph.
  - destruct (interrupt_step_spec s) as [-> ->]. by exists ph.
Qed.

Lemma run_ordered hk sched : forall s ph,
  order_run OIdle (trace s) = Some ph ->
  phase_at (rpc s) ph ->
  exists ph',
    order_run OIdle (trace (run hk sched s)) = Some ph' /\
    phase_at (rpc (run hk sched s)) ph'.
Proof.
  induction sched as [|l sched IH]; intros s ph Hrun Hat; [by exists ph|].
  rewrite run_cons.
  destruct (step_ordered hk l s ph Hrun Hat) as (ph1 & Hrun1 & Hat1).
  by apply (IH _ ph1).
Qed.

End Order.

(** X6.  However the two threads interleave and whatever the hooks do
    (return, raise, stop the controller), the render thread calls its
    hooks in order: in each tick [pre_render] first, [render] only after
    [pre_render], [post_render] only after [render], the flush only after
    [post_render], each at most once; a tick cut short by a failing hook
    calls none of the later ones. *)
Theorem hooks_called_in_order hk g s0 sched :
  boot hk g = Ok s0 ->
  exists ph,
    order_run OIdle (trace (run hk sched s0)) = Some ph /\
    phase_at (rpc (run hk sched s0)) ph.
Proof.
  intros Hboot. destruct (boot_sys hk g s0 Hboot) as (Hr & _ & Ht).
  apply (run_ordered hk sched s0 OIdle); [by rewrite Ht|by rewrite Hr].
Qed.

Lemma hooks_called_in_order_witness :
  exists ph,
    order_run OIdle
      (trace (run failing_hooks
                (LInput (Ok 120) :: replicate 9 (LRender (24, 80)))
                (mkSys (snd (log ["GUI start"] init)) RTop ITop [])))
      = Some ph /\
    phase_at
      (rpc (run failing_hooks
              (LInput (Ok 120) :: replicate 9 (LRender (24, 80)))
              (mkSys (snd (log ["GUI start"] init)) RTop ITop [])))
      ph.
Proof.
  apply (hooks_called_in_order failing_hooks init). reflexivity.
Defined.

(** * Leaving the loops *)

Section Exit.

Lemma input_phase_ipc m ev s : ipc (input_phase m ev s) = ITop.
Proof.
  unfold input_phase. destruct (m (gui s)) as [[[]|e] g1]; [done|].
  by rewrite input_handler_spec.
Qed.

Lemma render_phase_ipc m next ev s : ipc (render_phase m next ev s) = ipc s.
Proof.
  unfold render_phase. destruct (m (gui s)) as [[[]|e] g1]; [done|].
  by rewrite render_handler_spec.
Qed.

Lemma render_step_ipc hk size s : ipc (render_step hk size s) = ipc s.
Proof.
  unfold render_step.
  destruct (rpc s); try apply render_phase_ipc; [|done].
  by destruct (gui_bool (gui s)).
Qed.

Lemma interrupt_step_ipc s : ipc (interrupt_step s) = ipc s.
Proof. unfold interrupt_step. by destruct (rpc s), (ipc s) eqn:Hi. Qed.

(** A step of the render thread of a stopped controller brings it closer
    to its return. *)
Lemma render_step_left hk size s :
  running (gui s) = false ->
  (render_left (rpc (render_step hk size s)) <= pred (render_left (rpc s)))%nat.
Proof.
  intros Hstop. unfold render_step, gui_bool. rewrite Hstop.
  destruct (rpc s) eqn:Hpc; cbn [render_left rpc Nat.pred];
    rewrite ?Hpc; cbn [render_left]; try lia.
  all: match goal with
       | |- context [render_phase ?m ?next ?ev ?s0] =>
           destruct (render_phase_rpc m next ev s0) as [-> | ->]
       end; cbn; lia.
Qed.

Lemma input_step_left hk got s :
  running (gui s) = false ->
  (input_left (ipc (input_step hk got s)) <= pred (input_left (ipc s)))%nat.
Proof.
  intros Hstop. unfold input_step, gui_bool. rewrite Hstop.
  destruct (ipc s) eqn:Hpc.
  - cbn. lia.
  - destruct got as [key|e]; [destruct (key =? -1); cbn; lia|].
    rewrite input_phase_ipc. cbn. lia.
  - rewrite input_phase_ipc. cbn. lia.
  - rewrite Hpc. cbn. lia.
Qed.

Lemma run_left hk sched : forall s,
  hooks_keep_stopped hk ->
  running (gui s) = false ->
  (render_left (rpc (run hk sched s))
     <= render_left (rpc s) - count_if is_render_label sched)%nat /\
  (input_left (ipc (run hk sched s))
     <= input_left (ipc s) - count_if is_input_label sched)%nat.
Proof.
  induction sched as [|l sched IH]; intros s Hhk Hstop.
  - cbn. lia.
  - rewrite run_cons.
    destruct (IH (step hk l s) Hhk (step_stopped hk l s Hhk Hstop))
      as [Hr Hi].
    destruct l as [size|got|]; cbn [step count_if is_render_label
      is_input_label] in *.
    + pose proof (render_step_left hk size s Hstop).
      rewrite render_step_ipc in Hi. lia.
    + pose proof (input_step_left hk got s Hstop).
      rewrite input_step_rpc in Hr. lia.
    + rewrite (proj2 (interrupt_step_spec s)) in Hr.
      rewrite interrupt_step_ipc in Hi. lia.
Qed.

Lemma render_left_done pc : render_left pc = 0%nat -> pc = RDone.
Proof. by destruct pc. Qed.

Lemma input_left_done pc : input_left pc = 0%nat -> pc = IDone.
Proof. by destruct pc. Qed.

Lemma threads_exit hk sched s :
  hooks_keep_stopped hk ->
  running (gui s) = false ->
  (6 <= count_if is_render_label sched)%nat ->
  (3 <= count_if is_input_label sched)%nat ->
  rpc (run hk sched s) = RDone /\ ipc (run hk sched s) = IDone.
Proof.
  intros Hhk Hstop Hr Hi.
  destruct (run_left hk sched s Hhk Hstop) as [Hrl Hil].
  split; [apply render_left_done|apply input_left_done].
  - destruct (rpc s); cbn in Hrl; lia.
  - destruct (ipc s); cbn in Hil; lia.
Qed.

End Exit.

(** X7.  Once the running flag is false, however it became so, both
    threads return without being pre-empted: whatever they were doing and
    however they are interleaved, the render thread has returned after at
    most six of its steps (what is left of its tick, then the loop test)
    and the input thread after at most three -- the hooks of the
    application not setting the flag back. *)
Theorem stopped_threads_return hk sched s :
  hooks_keep_stopped hk ->
  running (gui s) = false ->
  (6 <= count_if is_render_label sched)%nat ->
  (3 <= count_if is_input_label sched)%nat ->
  rpc (run hk sched s) = RDone /\
  ipc (run hk sched s) = IDone /\
  running (gui (run hk sched s)) = false.
Proof.
  intros Hhk Hstop Hr Hi.
  destruct (threads_exit hk sched s Hhk Hstop Hr Hi) as [? ?].
  split; [done|]. split; [done|]. by apply run_stopped.
Qed.

Lemma stopped_threads_return_witness :
  rpc (run demo_hooks
         (replicate 3 (LInput (Ok 120)) ++ replicate 6 (LRender (24, 80)))
         (mkSys (snd (stop gui_80x24)) RSleep IGetch [])) = RDone /\
  ipc (run demo_hooks
         (replicate 3 (LInput (Ok 120)) ++ replicate 6 (LRender (24, 80)))
         (mkSys (snd (stop gui_80x24)) RSleep IGetch [])) = IDone /\
  running
    (gui (run demo_hooks
            (replicate 3 (LInput (Ok 120)) ++ replicate 6 (LRender (24, 80)))
            (mkSys (snd (stop gui_80x24)) RSleep IGetch []))) = false.
Proof.
  apply (stopped_threads_return demo_hooks
           (replicate 3 (LInput (Ok 120)) ++ replicate 6 (LRender (24, 80)))
           (mkSys (snd (stop gui_80x24)) RSleep IGetch [])
           demo_hooks_keep_stopped);
    [reflexivity | vm_compute; lia | vm_compute; lia].
Defined.

(** * Key codes *)

Section Keys.

Lemma count_if_app {A} (p : A -> bool) l1 l2 :
  count_if p (l1 ++ l2) = (count_if p l1 + count_if p l2)%nat.
Proof. induction l1 as [|a l1 IH]; cbn; [done|]. rewrite IH. lia. Qed.

Lemma step_keys hk key l seen s :
  keys_received key seen s ->
  keys_received key (seen ++ [l]) (step hk l s).
Proof.
  unfold keys_received, pending. intros [Hle Hz].
  rewrite count_if_app. cbn [count_if].
  destruct l as [size|got|]; cbn [step is_getch_of].
  - rewrite render_step_ipc.
    assert (Ht : count_if (is_keypress_of key) (trace (render_step hk size s))
                 = count_if (is_keypress_of key) (trace s)).
    { unfold render_step.
      destruct (rpc s); rewrite ?render_phase_trace, ?count_if_app;
        cbn; try lia.
      destruct (gui_bool (gui s)); cbn [trace];
        rewrite ?count_if_app; cbn; lia. }
    rewrite Ht. split; [lia|done].
  - unfold input_step. destruct (ipc s) eqn:Hpc.
    + destruct (gui_bool (gui s)); cbn [trace ipc];
        (split; [lia|intros ->; specialize (Hz eq_refl); lia]).
    + destruct got as [k|e].
      * destruct (Z.eqb_spec k (-1)) as [->|Hk]; cbn [trace ipc].
        -- split; [lia|intros ->; specialize (Hz eq_refl); lia].
        -- destruct (Z.eqb_spec k key) as [->|Hne].
           ++ split; [lia|]. intros ->. done.
           ++ split; [lia|intros ->; specialize (Hz eq_refl); lia].
      * destruct (input_phase_trace (raise e) [] s) as [-> _].
        rewrite input_phase_ipc, app_nil_r.
        split; [lia|intros ->; specialize (Hz eq_refl); lia].
    + destruct (input_phase_trace (keypress hk key0)
                  [EvHook (HKeypress key0)] s) as [-> _].
      rewrite input_phase_ipc, count_if_app. cbn.
      destruct (key0 =? key);
        (split; [lia|intros ->; specialize (Hz eq_refl); lia]).
    + cbn [trace ipc]. rewrite Hpc.
      split; [lia|intros ->; specialize (Hz eq_refl); lia].
  - destruct (interrupt_step_spec s) as [-> _]. rewrite interrupt_step_ipc.
    split; [lia|done].
Qed.

Lemma run_keys hk key sched : forall seen s,
  keys_received key seen s ->
  keys_received key (seen ++ sched) (run hk sched s).
Proof.
  induction sched as [|l sched IH]; intros seen s Hinv.
  - by rewrite app_nil_r.
  - rewrite run_cons, (cons_middle l seen sched), app_assoc.
    by apply IH, step_keys.
Qed.

End Keys.

(** X8.  The input thread hands to [keypress] only what [getch] returned
    to it: along any schedule, [keypress(key)] has been called at most as
    often as [getch] returned [key], and never with the time-out code
    [-1]. *)
Theorem keypress_once_per_key hk g s0 sched key :
  boot hk g = Ok s0 ->
  (count_if (is_keypress_of key) (trace (run hk sched s0))
     <= count_if (is_getch_of key) sched)%nat /\
  count_if (is_keypress_of (-1)) (trace (run hk sched s0)) = 0%nat.
Proof.
  intros Hboot. destruct (boot_sys hk g s0 Hboot) as (_ & Hi & Ht).
  assert (Hinit : forall k, keys_received k [] s0).
  { intros k. unfold keys_received, pending. rewrite Hi, Ht. cbn. lia. }
  pose proof (run_keys hk key sched [] s0 (Hinit key)) as [Hle _].
  pose proof (run_keys hk (-1) sched [] s0 (Hinit (-1))) as [_ Hz].
  specialize (Hz eq_refl). cbn [app] in *. lia.
Qed.

Lemma keypress_once_per_key_witness :
  Nat.le
    (count_if (is_keypress_of 120)
       (trace (run demo_hooks
                 [LInput (Ok 120); LInput (Ok 120); LInput (Ok 120);
                  LInput (Ok (-1)); LInput (Ok (-1)); LInput (Ok 7)]
                 (mkSys (snd (log ["GUI start"] init)) RTop ITop []))))
    (count_if (is_getch_of 120)
       [LInput (Ok 120); LInput (Ok 120); LInput (Ok 120);
        LInput (Ok (-1)); LInput (Ok (-1)); LInput (Ok 7)]) /\
  count_if (is_keypress_of (-1))
    (trace (run demo_hooks
              [LInput (Ok 120); LInput (Ok 120); LInput (Ok 120);
               LInput (Ok (-1)); LInput (Ok (-1)); LInput (Ok 7)]
              (mkSys (snd (log ["GUI start"] init)) RTop ITop []))) = 0%nat.
Proof.
  apply (keypress_once_per_key demo_hooks init). reflexivity.
Defined.

(** * The terminal and the start-up *)

Section StartFacts.

Lemma start_unfold hk colors sched g t :
  start hk colors sched g t =
    match setup hk (snd ((modify (set_gui_log []) >> log ["GUI start"]) g)) with
    | (Raise e, g2) => Raised e g2 (screen_exit (screen_enter colors t))
    | (Ok _, g2) =>
        if input_started g2
        then Raised threads_once g2 (screen_exit (screen_enter colors t))
        else if render_started g2
        then Raised threads_once (set_input_started true g2)
                    (screen_exit (screen_enter colors t))
        else
          match rpc (run hk sched
                       (mkSys (set_render_started true
                                 (set_input_started true g2)) RTop ITop [])),
                ipc (run hk sched
                       (mkSys (set_render_started true
                                 (set_input_started true g2)) RTop ITop []))
          with
          | RDone, IDone =>
              Returned
                (snd (log ["GUI end"]
                        (gui (run hk sched
                                (mkSys (set_render_started true
                                          (set_input_started true g2))
                                       RTop ITop [])))))
                (screen_exit (screen_enter colors t))
          | _, _ =>
              Joining (run hk sched
                         (mkSys (set_render_started true
                                   (set_input_started true g2)) RTop ITop []))
                      (screen_enter colors t)
          end
    end.
Proof. reflexivity. Qed.

End StartFacts.

(** X11.  A [setup] hook cannot draw: it runs before the render thread has
    sampled any size, so on a fresh controller a [setup] that calls [draw]
    at some [x >= 0] raises [AttributeError].  [start] does not catch it:
    the exception leaves [start] through the [with] block, which closes
    the screen; no thread is started, whatever the schedule, and the log
    holds "GUI start" and nothing else. *)
Theorem setup_draw_fails_start hk colors sched g t x y character attr :
  screen_width g = None ->
  setup hk = draw (x, y) character attr ->
  0 <= x ->
  exists g',
    start hk colors sched g t =
      Raised (attribute_error "screen_width") g'
             (screen_exit (screen_enter colors t)) /\
    gui_log g' = ["GUI start"] /\
    pixels g' = pixels g /\
    running g' = running g.
Proof.
  intros Hw Hsetup Hx. rewrite start_unfold, Hsetup.
  pose (g1 := snd ((modify (set_gui_log []) >> log ["GUI start"]) g)).
  assert (Hraise : draw (x, y) character attr g1 =
                     (Raise (attribute_error "screen_width"), g1)).
  { unfold draw, bind, get_screen_width.
    destruct (Z.leb_spec 0 x); [|lia].
    change (screen_width g1) with (screen_width g). by rewrite Hw. }
  exists g1. fold g1. by rewrite Hraise.
Qed.

Lemma setup_draw_fails_start_witness :
  exists g',
    start early_draw_hooks 8 (replicate 9 (LRender (24, 80))) init
          cooked_terminal =
      Raised (attribute_error "screen_width") g'
             (screen_exit (screen_enter 8 cooked_terminal)) /\
    gui_log g' = ["GUI start"] /\
    pixels g' = pixels init /\
    running g' = running init.
Proof.
  apply (setup_draw_fails_start early_draw_hooks 8
           (replicate 9 (LRender (24, 80))) init cooked_terminal 0 0 "X"
           A_NORMAL); [reflexivity | reflexivity | lia].
Defined.

(** X12.  The first [start] of a controller returns once the controller
    has been stopped and the threads have had the few steps they need to
    notice: if [setup] returns normally, neither thread was started
    before, and the controller is stopped at some point of the schedule,
    then after six more steps of the render thread and three more of the
    input thread [start] has returned, with [Screen.__exit__] run, the
    flag false and "GUI end" as the last line of the log.  A [start] on a
    controller whose input thread was started before -- a second [start]
    -- does not return: the [RuntimeError] of [Thread.start] leaves it,
    whatever the schedule, and "GUI end" is not logged by it. *)
Theorem start_returns_after_stop hk colors sched1 sched2 g t g2 :
  hooks_keep_stopped hk ->
  setup hk (snd ((modify (set_gui_log []) >> log ["GUI start"]) g))
    = (Ok tt, g2) ->
  (input_started g2 = false ->
   render_started g2 = false ->
   running
     (gui (run hk sched1
             (mkSys (set_render_started true (set_input_started true g2))
                    RTop ITop []))) = false ->
   (6 <= count_if is_render_label sched2)%nat ->
   (3 <= count_if is_input_label sched2)%nat ->
   exists g',
     start hk colors (sched1 ++ sched2) g t =
       Returned g' (screen_exit (screen_enter colors t)) /\
     running g' = false /\
     last (gui_log g') = Some "GUI end") /\
  (input_started g2 = true ->
   forall sched,
     start hk colors sched g t =
       Raised threads_once g2 (screen_exit (screen_enter colors t))).
Proof.
  intros Hhk Hsetup. split.
  - intros Hin Hre Hstop Hr Hi.
    rewrite start_unfold, Hsetup, Hin, Hre, run_app.
    destruct (threads_exit hk sched2 _ Hhk Hstop Hr Hi) as [-> ->].
    eexists. split; [done|]. split.
    + cbn. by apply run_stopped.
    + cbn. apply last_snoc.
  - intros Hin sched. by rewrite start_unfold, Hsetup, Hin.
Qed.

Lemma start_returns_after_stop_witness :
  (exists g',
     start demo_hooks 8 quit_schedule init cooked_terminal =
       Returned g' (screen_exit (screen_enter 8 cooked_terminal)) /\
     running g' = false /\
     last (gui_log g') = Some "GUI end") /\
  start demo_hooks 8 quit_schedule after_first_start
        (screen_exit (screen_enter 8 cooked_terminal)) =
    Raised threads_once
      (snd ((modify (set_gui_log []) >> log ["GUI start"]) after_first_start))
      (screen_exit
         (screen_enter 8 (screen_exit (screen_enter 8 cooked_terminal)))).
Proof.
  split.
  - apply (proj1 (start_returns_after_stop demo_hooks 8
                    (replicate 3 (LInput (Ok 113)))
                    (replicate 3 (LInput (Ok 120))
                       ++ replicate 6 (LRender (24, 80)))
                    init cooked_terminal
                    (snd ((modify (set_gui_log []) >> log ["GUI start"]) init))
                    demo_hooks_keep_stopped eq_refl));
      [reflexivity | reflexivity | reflexivity
      | vm_compute; lia | vm_compute; lia].
  - apply (proj2 (start_returns_after_stop demo_hooks 8 [] []
                    after_first_start
                    (screen_exit (screen_enter 8 cooked_terminal))
                    (snd ((modify (set_gui_log []) >> log ["GUI start"])
                            after_first_start))
                    demo_hooks_keep_stopped eq_refl)).
    vm_compute. reflexivity.
Defined.

(** * A string drawn in two pieces *)

Section Pieces.

Lemma enumerate_from_app s1 s2 : forall k,
  enumerate_from k (s1 +:+ s2) =
    enumerate_from k s1
      ++ enumerate_from (k + Z.of_nat (String.length s1)) s2.
Proof.
  induction s1 as [|a s1 IH]; intros k; simpl.
  - by rewrite Z.add_0_r.
  - rewrite IH. do 3 f_equal. lia.
Qed.

Lemma enumerate_from_shift s : forall j k,
  enumerate_from (j + k) s =
    (fun ic : Z * string => (ic.1 + k, ic.2)) <$> enumerate_from j s.
Proof.
  induction s as [|a s IH]; intros j k; cbn; [done|].
  f_equal. rewrite <- IH. f_equal. lia.
Qed.

Lemma string_cell_shift ox oy x y dx dy k i :
  string_cell ox oy (x + dx * k) (y + dy * k) dx dy i =
    string_cell ox oy x y dx dy (i + k).
Proof. unfold string_cell. f_equal; lia. Qed.

Lemma direction_any_state direction g g1 step :
  get_directional_reference direction g = (Ok step, g) ->
  get_directional_reference direction g1 = (Ok step, g1).
Proof.
  unfold get_directional_reference.
  repeat (match goal with
          | |- context [?a =? ?b] => destruct (a =? b)
          end; [unfold ret; by intros [= <-]|]).
  by unfold raise.
Qed.

Lemma origin_depends_on_size origin g g1 offset :
  screen_width g1 = screen_width g ->
  screen_height g1 = screen_height g ->
  get_origin_reference origin g = (Ok offset, g) ->
  get_origin_reference origin g1 = (Ok offset, g1).
Proof.
  intros Hw Hh. unfold get_origin_reference.
  repeat (match goal with
          | |- (if ?c then _ else _) _ = _ -> _ => destruct c
          end;
          [unfold bind, ret, get_screen_width, get_screen_height;
           rewrite ?Hw, ?Hh; destruct (screen_width g); cbn beta iota;
           rewrite ?Hw, ?Hh; destruct (screen_height g); cbn beta iota;
           intros ?; by simplify_eq|]).
  by unfold raise.
Qed.

(** [draw_string] as the loop it runs once both look-ups have returned. *)
Lemma draw_string_loop g x y s attr direction origin ox oy dx dy :
  get_origin_reference origin g = (Ok (ox, oy), g) ->
  get_directional_reference direction g = (Ok (dx, dy), g) ->
  draw_string (x, y) s attr direction origin g =
    for_each (enumerate s)
      (fun ic : Z * string =>
         draw_call (string_cell ox oy x y dx dy ic.1, ic.2, attr)) g.
Proof.
  intros Horigin Hdir. unfold draw_string.
  rewrite (bind_ok _ _ _ _ _ Horigin). cbn beta iota.
  rewrite (bind_ok _ _ _ _ _ Hdir). cbn beta iota.
  by rewrite (for_each_ext _ _
                (fun ic : Z * string =>
                   draw_call (string_cell ox oy x y dx dy ic.1, ic.2, attr)))
    by by intros [i c].
Qed.

End Pieces.

(** X14.  Drawing a string is the same as drawing it in two pieces, the
    second piece starting where the first one ended: with the size
    present and the identifiers valid, [draw_string] of [s1 + s2] at
    [(x, y)] leaves the object exactly as [draw_string] of [s1] at
    [(x, y)] followed by [draw_string] of [s2] at
    [(x + dx * len(s1), y + dy * len(s1))]. *)
Theorem draw_string_in_two_pieces
    g w h x y s1 s2 attr direction origin ox oy dx dy :
  screen_width g = Some w ->
  screen_height g = Some h ->
  get_origin_reference origin g = (Ok (ox, oy), g) ->
  get_directional_reference direction g = (Ok (dx, dy), g) ->
  draw_string (x, y) (s1 +:+ s2) attr direction origin g =
    (draw_string (x, y) s1 attr direction origin >>
     draw_string (x + dx * Z.of_nat (String.length s1),
                  y + dy * Z.of_nat (String.length s1))
                 s2 attr direction origin) g.
Proof.
  intros Hw Hh Horigin Hdir.
  pose (f := fun ic : Z * string =>
               (string_cell ox oy x y dx dy ic.1, ic.2, attr)).
  pose (g1 := set_pixels
                (fold_left (put w h) (f <$> enumerate_from 0 s1) (pixels g)) g).
  assert (Hloop1 : for_each (enumerate_from 0 s1)
                     (fun ic => draw_call (f ic)) g = (Ok tt, g1)).
  { unfold g1. rewrite <- (draws_spec w h) by done. by rewrite for_each_fmap. }
  assert (Hfirst : draw_string (x, y) s1 attr direction origin g = (Ok tt, g1)).
  { by rewrite (draw_string_loop g x y s1 attr direction origin
                  ox oy dx dy Horigin Hdir). }
  rewrite (bind_ok _ _ _ _ _ Hfirst).
  rewrite (draw_string_loop g x y (s1 +:+ s2) attr direction origin
             ox oy dx dy Horigin Hdir).
  unfold enumerate. rewrite enumerate_from_app, for_each_app.
  fold f. rewrite (bind_ok _ _ _ _ _ Hloop1).
  rewrite (draw_string_loop g1 _ _ s2 attr direction origin ox oy dx dy
             (origin_depends_on_size origin g g1 (ox, oy) eq_refl eq_refl
                Horigin)
             (direction_any_state direction g g1 (dx, dy) Hdir)).
  unfold enumerate.
  rewrite (enumerate_from_shift s2 0 (Z.of_nat (String.length s1))).
  rewrite for_each_fmap. symmetry.
  rewrite (for_each_ext _ _
             (fun a : Z * string =>
                draw_call (f (a.1 + Z.of_nat (String.length s1), a.2))));
    [done|].
  intros [i c]. unfold f. cbn [fst snd]. by rewrite string_cell_shift.
Qed.

Lemma draw_string_in_two_pieces_witness :
  draw_string (78, 3) ("HE" +:+ "LLO") A_NORMAL RIGHT BOTTOM_LEFT gui_80x24 =
    (draw_string (78, 3) "HE" A_NORMAL RIGHT BOTTOM_LEFT >>
     draw_string (78 + 1 * Z.of_nat (String.length "HE"),
                  3 + 0 * Z.of_nat (String.length "HE"))
                 "LLO" A_NORMAL RIGHT BOTTOM_LEFT) gui_80x24.
Proof.
  apply (draw_string_in_two_pieces gui_80x24 80 24 78 3 "HE" "LLO" A_NORMAL
           RIGHT BOTTOM_LEFT 0 0 1 0); reflexivity.
Defined.
